(** * alttext-app: the describe / translate relay and the browser pipeline

    A shallow embedding of [server.js] (the two API routes) and of
    [client/src/AltTextApp.tsx] (file validation, the describe-translate
    pipeline and the CSV exporter), with the properties the specification
    states about them. *)

From Stdlib Require Import String Ascii ZArith NArith DecimalString.
From stdpp Require Import base option list gmap.

#[local] Set Warnings "-register-all".
#[local] Open Scope N_scope.

(** ** JavaScript strings and values *)

(** A JavaScript string is a sequence of UTF-16 code units. *)
Definition jsstring := list N.

(** An ASCII literal of the source, as code units. *)
Definition js (s : string) : jsstring :=
  map N_of_ascii (list_ascii_of_string s).
Arguments js _%_string.

(** The values that travel as JSON, plus [undefined].  Numbers are kept as
    integers: the code only ever asks whether one is zero. *)
Inductive jsvalue :=
| VUndef
| VNull
| VBool (b : bool)
| VNum (z : Z)
| VStr (s : jsstring)
| VArr (l : list jsvalue)
| VObj (m : gmap (list N) jsvalue).

(** The properties of an object literal [{ k1: v1, k2: v2, ... }], set in
    source order. *)
Definition properties (props : list (jsstring * jsvalue))
  : gmap (list N) jsvalue :=
  foldl (fun m kv => <[kv.1 := kv.2]> m) ∅ props.

Definition object (props : list (jsstring * jsvalue)) : jsvalue :=
  VObj (properties props).

(** The elements of an array. *)
Definition elements (v : jsvalue) : list jsvalue :=
  match v with VArr l => l | _ => [] end.

(** ToBoolean. *)
Definition truthy (v : jsvalue) : bool :=
  match v with
  | VUndef | VNull => false
  | VBool b => b
  | VNum z => negb (z =? 0)%Z
  | VStr s => match s with [] => false | _ => true end
  | VArr _ | VObj _ => true
  end.

(** [Array.isArray]. *)
Definition isArray (v : jsvalue) : bool :=
  match v with VArr _ => true | _ => false end.

(** Is the value [null] or [undefined]. *)
Definition nullish (v : jsvalue) : bool :=
  match v with VUndef | VNull => true | _ => false end.

(** [v[k]] for a value that is neither [null] nor [undefined]: the own
    property of an object, [undefined] otherwise.  What arrays, strings and
    objects carry implicitly ([length], indices, prototype methods) is left
    out; none of the names the relay and the client read ([items],
    [locales], [filename], [english_alt], [results], [rows] and the locale
    names) is one of those. *)
Definition member (v : jsvalue) (k : jsstring) : jsvalue :=
  match v with
  | VObj m => default VUndef (m !! k)
  | _ => VUndef
  end.

(** [a || b] on values. *)
Definition or_else (a b : jsvalue) : jsvalue := if truthy a then a else b.

(** [s || d] where [s] is a string that may be absent ([undefined] or
    [null]). *)
Definition str_or (s : option jsstring) (d : jsstring) : jsstring :=
  match s with
  | Some (c :: r) => c :: r
  | _ => d
  end.

(** [String.prototype.trim]: WhiteSpace and LineTerminator code points of
    ECMAScript, all of which are single code units. *)
Definition is_white_space (c : N) : bool :=
  (c =? 9) || (c =? 10) || (c =? 11) || (c =? 12) || (c =? 13) || (c =? 32)
  || (c =? 160) || (c =? 5760) || ((8192 <=? c) && (c <=? 8202))
  || (c =? 8232) || (c =? 8233) || (c =? 8239) || (c =? 8287)
  || (c =? 12288) || (c =? 65279).

Fixpoint trimStart (s : jsstring) : jsstring :=
  match s with
  | c :: r => if is_white_space c then trimStart r else s
  | [] => []
  end.

Definition trimEnd (s : jsstring) : jsstring := rev (trimStart (rev s)).

Definition trim (s : jsstring) : jsstring := trimEnd (trimStart s).

(** What [JSON.stringify] followed by [JSON.parse] leaves of a value: a
    property whose value is [undefined] is dropped, an [undefined] array
    element becomes [null]. *)
Fixpoint wire (v : jsvalue) : jsvalue :=
  match v with
  | VArr l =>
      VArr (map (fun x => match x with VUndef => VNull | _ => wire x end) l)
  | VObj m =>
      VObj (omap (fun x => match x with
                           | VUndef => None
                           | _ => Some (wire x)
                           end) m)
  | _ => v
  end.

(** What [JSON.stringify] followed by [JSON.parse] leaves of an array
    element. *)
Definition wire_element (x : jsvalue) : jsvalue :=
  match x with VUndef => VNull | _ => wire x end.

(** ** The remote model and the effects of a handler *)

(** The parts of a chat-completion request that vary from call to call; the
    model name, the instruction texts and the temperature are constants of
    the source.  [image_data] holds the bytes of the image, which the
    request carries in base64. *)
Inductive chat_request :=
| DescribeRequest (image_data : list N) (mime_type : jsstring)
| TranslateRequest (text : jsvalue) (locales : list jsvalue).

(** A completion, as far as [completion.choices?.[0]?.message?.content]
    looks into it.  [None] stands for a member that is [undefined] or
    [null]. *)
Record chat_message := { content : option jsstring }.
Record chat_choice := { message : option chat_message }.
Record chat_completion := { choices : option (list chat_choice) }.

(** [completion.choices?.[0]?.message?.content] *)
Definition first_content (completion : chat_completion) : option jsstring :=
  match choices completion with
  | Some (choice :: _) =>
      match message choice with
      | Some msg => content msg
      | None => None
      end
  | _ => None
  end.

Inductive exn :=
| Error (msg : jsstring)
| TypeError
| SyntaxError
| RemoteError.

Inductive outcome (A : Type) :=
| Returned (a : A)
| Thrown (e : exn).
Arguments Returned {A} a.
Arguments Thrown {A} e.

(** The world a handler runs in is the log of the remote calls issued so
    far, oldest first.  A computation returns or throws, and extends the
    log. *)
Definition world := list chat_request.
Definition M (A : Type) : Type := world -> outcome A * world.

Definition ret {A} (a : A) : M A := fun w => (Returned a, w).
Definition throw {A} (e : exn) : M A := fun w => (Thrown e, w).
Definition bind {A B} (m : M A) (k : A -> M B) : M B :=
  fun w =>
    match m w with
    | (Returned a, w') => k a w'
    | (Thrown e, w') => (Thrown e, w')
    end.

(** [try { m } catch (e) { handler }] with a handler that cannot throw. *)
Definition try_catch {A} (m : M A) (handler : exn -> world -> A * world)
  : world -> A * world :=
  fun w =>
    match m w with
    | (Returned a, w') => (a, w')
    | (Thrown e, w') => handler e w'
    end.

Notation "'let*' x ':=' m 'in' k" := (bind m (fun x => k))
  (at level 10, x name, m at level 100, k at level 200).

(** A response of the relay: [res.json(body)] (status 200) or
    [res.status(status).send(text)]. *)
Inductive response :=
| json (body : jsvalue)
| send (status : N) (text : jsstring).

(** ** The relay: server.js *)

Module Server.

(** A file as multer's memory storage hands it to the handler. *)
Record multer_file := {
  originalname : jsstring;
  mimetype : jsstring;
  buffer : list N
}.

(** Declared by the relay as the list the frontend expects; neither route
    reads it. *)
Definition LOCALES : list jsstring :=
  [js "es-ES"; js "it-IT"; js "nl-NL"; js "nl-BE"; js "fr-FR"; js "de-DE";
   js "de-AT"].

Section Relay.

(** The remote model: what the [n]-th call issued by the process, with
    request [req], resolves to; [None] is a rejected promise. *)
Variable remote : nat -> chat_request -> option chat_completion.

(** [JSON.parse]; [None] is a thrown SyntaxError. *)
Variable JSON_parse : jsstring -> option jsvalue.

(** ToString on a value that is not a string, for property keys. *)
Variable ToString : jsvalue -> jsstring.

(** [await openai.chat.completions.create(...)] *)
Definition chat_create (req : chat_request) : M chat_completion :=
  fun w =>
    (match remote (length w) req with
     | Some completion => Returned completion
     | None => Thrown RemoteError
     end, w ++ [req]).

(** *** POST /api/describe *)

Definition describe_request (f : multer_file) : chat_request :=
  DescribeRequest (buffer f) (str_or (Some (mimetype f)) (js "image/jpeg")).

Definition described_item (f : multer_file) (completion : chat_completion)
  : jsvalue :=
  let english_alt :=
    trim (str_or (first_content completion) (js "Descriptive alt text.")) in
  object [(js "filename", VStr (originalname f));
          (js "english_alt", VStr english_alt)].

(** The body of [for (const f of files)], [results] being the array
    pushed to. *)
Fixpoint describe_loop (files : list multer_file) (results : list jsvalue)
  : M (list jsvalue) :=
  match files with
  | [] => ret results
  | f :: rest =>
      let* completion := chat_create (describe_request f) in
      describe_loop rest (results ++ [described_item f completion])
  end.

Definition api_describe (req_files : option (list multer_file))
  : world -> response * world :=
  try_catch
    (let files := default [] req_files in
     if (length files =? 0)%nat
     then ret (json (object [(js "results", VArr [])]))
     else
       let* results := describe_loop files [] in
       ret (json (object [(js "results", VArr results)])))
    (fun err w => (send 500 (js "Describe error"), w)).

(** *** POST /api/translate *)

(** ToPropertyKey of an element of [locales]. *)
Definition to_key (lc : jsvalue) : jsstring :=
  match lc with VStr s => s | _ => ToString lc end.

(** [v[k]], a TypeError when [v] is [null] or [undefined]. *)
Definition get (v : jsvalue) (k : jsstring) : M jsvalue :=
  if nullish v then throw TypeError else ret (member v k).

(** [for (const lc of locales) row[lc] = parsed[lc] || ""] *)
Fixpoint fill_locales (parsed : jsvalue) (locales : list jsvalue)
    (row : gmap (list N) jsvalue) : M (gmap (list N) jsvalue) :=
  match locales with
  | [] => ret row
  | lc :: rest =>
      let* v := get parsed (to_key lc) in
      fill_locales parsed rest (<[to_key lc := or_else v (VStr [])]> row)
  end.

Definition translate_request (english_alt : jsvalue) (locales : list jsvalue)
  : chat_request :=
  TranslateRequest english_alt locales.

(** The row literal of the loop body, before any locale is filled in. *)
Definition blank_row (filename english_alt : jsvalue)
  : gmap (list N) jsvalue :=
  properties [(js "filename", filename);
              (js "english_alt", english_alt);
              (js "es-ES", VStr []);
              (js "it-IT", VStr []);
              (js "nl-NL", VStr []);
              (js "nl-BE", VStr []);
              (js "fr-FR", VStr []);
              (js "de-DE", VStr []);
              (js "de-AT", VStr [])].

(** The body of [for (const it of items)]. *)
Definition translate_item (it : jsvalue) (locales : list jsvalue)
  : M jsvalue :=
  let* filename := get it (js "filename") in
  let* english_alt := get it (js "english_alt") in
  let row := blank_row filename english_alt in
  let* completion := chat_create (translate_request english_alt locales) in
  let* parsed :=
    match JSON_parse (str_or (first_content completion) (js "{}")) with
    | Some v => ret v
    | None => throw SyntaxError
    end in
  let* row := fill_locales parsed locales row in
  ret (VObj row).

(** What the loop body leaves in the row of item [it] when the reply
    parsed to [parsed]: the literal's properties, except for the names in
    [locales], which hold the parsed translations. *)
Definition row_of (locales : list jsvalue) (it parsed : jsvalue)
    (row : gmap (list N) jsvalue) : Prop :=
  (∀ k, k ∉ map to_key locales →
        row !! k
        = blank_row (member it (js "filename"))
                    (member it (js "english_alt")) !! k)
  ∧ (∀ lc, lc ∈ locales →
           row !! to_key lc
           = Some (or_else (member parsed (to_key lc)) (VStr []))).

(** The ways the loop body throws for item [it] when its remote call is
    call number [n]: the item is null, the call is rejected, the reply does
    not parse, or it parses to null while there is a locale to read. *)
Definition item_throws (locales : list jsvalue) (it : jsvalue) (n : nat)
  : Prop :=
  let req := translate_request (member it (js "english_alt")) locales in
  nullish it = true
  ∨ remote n req = None
  ∨ ∃ c, remote n req = Some c
         ∧ (JSON_parse (str_or (first_content c) (js "{}")) = None
            ∨ ∃ parsed,
                JSON_parse (str_or (first_content c) (js "{}")) = Some parsed
                ∧ nullish parsed = true
                ∧ locales ≠ []).

Fixpoint translate_loop (items locales rows : list jsvalue)
  : M (list jsvalue) :=
  match items with
  | [] => ret rows
  | it :: rest =>
      let* row := translate_item it locales in
      translate_loop rest locales (rows ++ [row])
  end.

Definition api_translate (req_body : jsvalue) : world -> response * world :=
  try_catch
    (let body := or_else req_body (object []) in
     let items := member body (js "items") in
     let locales := member body (js "locales") in
     if negb (isArray items) || negb (isArray locales)
     then ret (send 400 (js "Bad request"))
     else
       let* rows := translate_loop (elements items) (elements locales) [] in
       ret (json (object [(js "rows", VArr rows)])))
    (fun err w => (send 500 (js "Translate error"), w)).

End Relay.

End Server.

(** ** The browser side: client/src/AltTextApp.tsx *)

Module Client.

(** [interface Row] *)
Record Row := {
  filename : jsstring;
  english_alt : jsstring;
  es_ES : jsstring;
  it_IT : jsstring;
  nl_NL : jsstring;
  nl_BE : jsstring;
  fr_FR : jsstring;
  de_DE : jsstring;
  de_AT : jsstring
}.

(** Key and label of each locale. *)
Definition LOCALES : list (jsstring * jsstring) :=
  [(js "es-ES", js "Spanish (Spain)");
   (js "it-IT", js "Italian (Italy)");
   (js "nl-NL", js "Dutch (Netherlands)");
   (js "nl-BE", js "Dutch (Belgium)");
   (js "fr-FR", js "French (France)");
   (js "de-DE", js "German (Germany)");
   (js "de-AT", js "German (Austria)")].

Definition SUPPORTED_MIME : gset (list N) :=
  list_to_set [js "image/jpeg"; js "image/jpg"; js "image/png";
               js "image/webp"].

Definition MAX_SIZE_BYTES : N := 5 * 1024 * 1024.

(** A browser [File]: its name, declared media type, byte size and
    content. *)
Record File := {
  name : jsstring;
  type : jsstring;
  size : N;
  bytes : list N
}.

(** *** Validation, the first part of [handleFiles] *)

Definition unsupported_message (file : File) : jsstring :=
  name file
  ++ js " is not a supported image format (.jpg, .jpeg, .png, .webp).".

Definition oversize_message (file : File) : jsstring :=
  name file ++ js " exceeds 5 MB. Please upload images up to 5 MB.".

(** The callback of [asArray.forEach], on the pair of arrays it pushes
    to. *)
Definition validate_file (acc : list jsstring * list File) (file : File)
  : list jsstring * list File :=
  let '(newErrors, validFiles) := acc in
  if negb (bool_decide (type file ∈ SUPPORTED_MIME))
  then (newErrors ++ [unsupported_message file], validFiles)
  else if MAX_SIZE_BYTES <? size file
  then (newErrors ++ [oversize_message file], validFiles)
  else (newErrors, validFiles ++ [file]).

Definition validate (asArray : list File) : list jsstring * list File :=
  foldl validate_file ([], []) asArray.

(** The two branches of the callback, file by file: is the file kept, and
    the message pushed for it when it is not. *)
Definition accepted (file : File) : bool :=
  bool_decide (type file ∈ SUPPORTED_MIME)
  && negb (MAX_SIZE_BYTES <? size file).

Definition rejection (file : File) : option jsstring :=
  if negb (bool_decide (type file ∈ SUPPORTED_MIME))
  then Some (unsupported_message file)
  else if MAX_SIZE_BYTES <? size file
  then Some (oversize_message file)
  else None.

(** *** The CSV exporter, [useCSV] *)

Definition headers : list jsstring :=
  [js "filename"; js "english_alt"; js "es-ES"; js "it-IT"; js "nl-NL";
   js "nl-BE"; js "fr-FR"; js "de-DE"; js "de-AT"].

(** [(r as any)[h]] *)
Definition Row_get (r : Row) (h : jsstring) : option jsstring :=
  if decide (h = js "filename") then Some (filename r)
  else if decide (h = js "english_alt") then Some (english_alt r)
  else if decide (h = js "es-ES") then Some (es_ES r)
  else if decide (h = js "it-IT") then Some (it_IT r)
  else if decide (h = js "nl-NL") then Some (nl_NL r)
  else if decide (h = js "nl-BE") then Some (nl_BE r)
  else if decide (h = js "fr-FR") then Some (fr_FR r)
  else if decide (h = js "de-DE") then Some (de_DE r)
  else if decide (h = js "de-AT") then Some (de_AT r)
  else None.

Definition QUOTE : N := 34.
Definition COMMA : N := 44.
Definition LF : N := 10.
Definition CR : N := 13.
Definition BOM : N := 65279.

(** The test of [escape]: does [v] hold a double quote, a comma or a line
    feed. *)
Definition needs_quoting (v : jsstring) : bool :=
  existsb (fun c => (c =? QUOTE) || (c =? COMMA) || (c =? LF)) v.

(** The [replace] of [escape]: every double quote becomes two. *)
Definition double_quotes (v : jsstring) : jsstring :=
  flat_map (fun c => if c =? QUOTE then [QUOTE; QUOTE] else [c]) v.

Definition escape (val : option jsstring) : jsstring :=
  let v := default [] val in
  if needs_quoting v then [QUOTE] ++ double_quotes v ++ [QUOTE] else v.

(** [Array.prototype.join] on strings. *)
Fixpoint join (sep : jsstring) (xs : list jsstring) : jsstring :=
  match xs with
  | [] => []
  | [x] => x
  | x :: rest => x ++ sep ++ join sep rest
  end.

Definition toCSV (rows : list Row) : jsstring :=
  let lines :=
    [join [COMMA] headers]
    ++ map (fun r =>
              let vals :=
                map (fun h => escape (Some (default [] (Row_get r h))))
                    headers in
              join [COMMA] vals) rows in
  join [LF] lines.

(** The text [download] puts in the blob. *)
Definition download_text (rows : list Row) : jsstring :=
  [BOM] ++ toCSV rows.

Definition COLON : N := 58.
Definition DOT : N := 46.
Definition DASH : N := 45.

(** The [replace] of [download]: every colon and every dot becomes a
    dash. *)
Definition dashed (ts : jsstring) : jsstring :=
  map (fun c => if (c =? COLON) || (c =? DOT) then DASH else c) ts.

(** The name [download] gives the file, [iso] being what
    [new Date().toISOString()] returned. *)
Definition download_name (iso : jsstring) : jsstring :=
  let ts := dashed iso in
  js "alt-texts-" ++ ts ++ js ".csv".

(** [classNames]: an entry is a string, [false], [null] or [undefined];
    [None] stands for the three that are no string.  [filter(Boolean)]
    keeps the strings that are not empty. *)
Definition classNames (xs : list (option jsstring)) : jsstring :=
  join (js " ")
       (omap (fun x => match x with
                       | Some (c :: r) => Some (c :: r)
                       | _ => None
                       end) xs).

(** *** The pipeline: [batchDescribe], [batchTranslate], [handleFiles] *)

(** The part of the component state the pipeline writes. *)
Record app_state := {
  rows : list jsvalue;
  errors : list jsstring;
  isProcessing : bool
}.

Definition setRows (f : list jsvalue -> list jsvalue) (st : app_state)
  : app_state :=
  {| rows := f (rows st); errors := errors st;
     isProcessing := isProcessing st |}.

Definition setErrors (f : list jsstring -> list jsstring) (st : app_state)
  : app_state :=
  {| rows := rows st; errors := f (errors st);
     isProcessing := isProcessing st |}.

Definition setIsProcessing (b : bool) (st : app_state) : app_state :=
  {| rows := rows st; errors := errors st; isProcessing := b |}.

(** The part multer makes of a file appended to the form under its own
    name. *)
Definition form_part (f : File) : Server.multer_file :=
  {| Server.originalname := name f;
     Server.mimetype :=
       str_or (Some (type f)) (js "application/octet-stream");
     Server.buffer := bytes f |}.

(** A number in a template literal. *)
Definition decimal (n : N) : jsstring :=
  js (NilZero.string_of_uint (N.to_uint n)).

Section Pipeline.

Variable remote : nat -> chat_request -> option chat_completion.
Variable JSON_parse : jsstring -> option jsvalue.
Variable ToString : jsvalue -> jsstring.

(** [JSON.stringify], for the text of a response sent as JSON. *)
Variable JSON_stringify : jsvalue -> jsstring.

(** The message the engine gives an error it throws itself. *)
Variable builtin_message : exn -> jsstring.

Definition res_ok (res : response) : bool :=
  match res with
  | json _ => true
  | send status _ => (200 <=? status) && (status <=? 299)
  end.

Definition res_status (res : response) : N :=
  match res with
  | json _ => 200
  | send status _ => status
  end.

(** [await res.text()] *)
Definition res_text (res : response) : jsstring :=
  match res with
  | json body => JSON_stringify body
  | send _ text => text
  end.

(** [await res.json()] *)
Definition res_json (res : response) : M jsvalue :=
  match res with
  | json body => ret (wire body)
  | send _ text =>
      match JSON_parse text with
      | Some v => ret v
      | None => throw SyntaxError
      end
  end.

(** [await fetch(...)]: the request reaches the route of the relay, which
    serves the page itself, and its response comes back. *)
Definition fetch (route : world -> response * world) : M response :=
  fun w => let '(res, w') := route w in (Returned res, w').

Definition batchDescribe (files : list File) : M (list jsvalue) :=
  let form := map form_part files in
  let* res := fetch (Server.api_describe remote (Some form)) in
  if negb (res_ok res)
  then
    throw (Error (js "Describe API failed (" ++ decimal (res_status res)
                  ++ js "). " ++ res_text res))
  else
    let* data := res_json res in
    let results := member data (js "results") in
    if negb (truthy results) || negb (isArray results)
    then throw (Error (js "Bad describe API response"))
    else ret (elements results).

Definition batchTranslate (items : list jsvalue) (locales : list jsstring)
  : M (list jsvalue) :=
  let body :=
    wire (object [(js "items", VArr items);
                  (js "locales", VArr (map VStr locales))]) in
  let* res :=
    fetch (Server.api_translate remote JSON_parse ToString body) in
  if negb (res_ok res)
  then
    throw (Error (js "Translate API failed (" ++ decimal (res_status res)
                  ++ js "). " ++ res_text res))
  else
    let* data := res_json res in
    let rows := member data (js "rows") in
    if negb (truthy rows) || negb (isArray rows)
    then throw (Error (js "Bad translate API response"))
    else ret (elements rows).

(** [e?.message || String(e)] *)
Definition surfaced_message (e : exn) : jsstring :=
  match e with
  | Error msg => str_or (Some msg) (js "Error")
  | _ => builtin_message e
  end.

Definition handleFiles (files : list File) (st : app_state)
  : world -> app_state * world :=
  fun w =>
    let '(newErrors, validFiles) := validate files in
    let st := setErrors (fun prev => prev ++ newErrors) st in
    if (length validFiles =? 0)%nat then (st, w)
    else
      let st := setIsProcessing true st in
      let '(st, w) :=
        try_catch
          (let* described := batchDescribe validFiles in
           let locales := map fst LOCALES in
           let* completedRows := batchTranslate described locales in
           ret (setRows (fun prev => prev ++ completedRows) st))
          (fun e w =>
             (setErrors (fun prev => prev ++ [surfaced_message e]) st, w))
          w in
      (setIsProcessing false st, w).

End Pipeline.

End Client.

(** ** A reader for the exported document *)

Inductive csv_state :=
| FieldStart
| Unquoted
| Quoted
| QuoteSeen.

(** Modelled from the spec: the reader a spreadsheet tool applies to the
    exported document, which the repository does not contain.  The
    specification describes the format as comma-separated, with CRLF or LF
    line endings and standard quoting: a field that starts with a double
    quote runs to the closing one, a doubled quote inside it standing for
    one quote; everything else is taken literally.  [field] holds the
    current field backwards, [record] the finished fields of the current
    record, last one first. *)
Fixpoint csv_records (st : csv_state) (field : jsstring)
    (record : list jsstring) (s : jsstring) : list (list jsstring) :=
  let finished := rev (rev field :: record) in
  match s with
  | [] =>
      match st, record with
      | FieldStart, [] => []
      | _, _ => [finished]
      end
  | c :: rest =>
      match st with
      | Quoted =>
          if c =? Client.QUOTE
          then csv_records QuoteSeen field record rest
          else csv_records Quoted (c :: field) record rest
      | _ =>
          if c =? Client.COMMA
          then csv_records FieldStart [] (rev field :: record) rest
          else if c =? Client.LF
          then finished :: csv_records FieldStart [] [] rest
          else if c =? Client.CR
          then
            match rest with
            | c' :: rest' =>
                if c' =? Client.LF
                then finished :: csv_records FieldStart [] [] rest'
                else csv_records Unquoted (c :: field) record rest
            | [] => csv_records Unquoted (c :: field) record rest
            end
          else if c =? Client.QUOTE
          then
            match st with
            | FieldStart => csv_records Quoted field record rest
            | QuoteSeen => csv_records Quoted (c :: field) record rest
            | _ => csv_records Unquoted (c :: field) record rest
            end
          else csv_records Unquoted (c :: field) record rest
      end
  end.

(** The reader drops a leading byte-order mark. *)
Definition csv_read (document : jsstring) : list (list jsstring) :=
  match document with
  | c :: rest =>
      if c =? Client.BOM then csv_records FieldStart [] [] rest
      else csv_records FieldStart [] [] document
  | [] => []
  end.

(** The fields of a row, in header order. *)
Definition Row_values (r : Client.Row) : list jsstring :=
  map (fun h => default [] (Client.Row_get r h)) Client.headers.

(** One line of the export: the escaped fields, separated by commas. *)
Definition line_of (vs : list jsstring) : jsstring :=
  Client.join [Client.COMMA] (map (fun v => Client.escape (Some v)) vs).

(** Does [escape] write the field without quotes although it holds a
    carriage return. *)
Definition bare_carriage_return (v : jsstring) : bool :=
  negb (Client.needs_quoting v) && existsb (fun c => c =? Client.CR) v.

(** What may follow a field: the end of the text, a comma or a line
    feed. *)
Definition ends_field (k : jsstring) : Prop :=
  match k with
  | [] => True
  | c :: _ => c = Client.COMMA ∨ c = Client.LF
  end.


(** ** Sample replies, requests and files *)

Module Samples.

(** A completion whose first choice carries [text]. *)
Definition completion_with (text : option jsstring) : chat_completion :=
  {| choices := Some [{| message := Some {| content := text |} |}] |}.

(** A remote model that answers every call with [c]. *)
Definition remote_always (c : chat_completion)
  : nat -> chat_request -> option chat_completion :=
  fun _ _ => Some c.

(** A remote model that rejects call number [n] and answers every other
    call with [c]. *)
Definition remote_failing_at (n : nat) (c : chat_completion)
  : nat -> chat_request -> option chat_completion :=
  fun k _ => if (k =? n)%nat then None else Some c.

(** [JSON.parse] on the texts listed in [table], a SyntaxError elsewhere. *)
Definition parse_table (table : list (jsstring * jsvalue))
  : jsstring -> option jsvalue :=
  fun text => snd <$> find (fun entry => bool_decide (entry.1 = text)) table.

Definition quoted (s : jsstring) : jsstring := [34] ++ s ++ [34].

(** The text of an object that translates into Spanish only. *)
Definition spanish_only : jsstring :=
  js "{" ++ quoted (js "es-ES") ++ js ":" ++ quoted (js "hola") ++ js "}".

Definition reply_table : list (jsstring * jsvalue) :=
  [(js "{}", object []);
   (spanish_only, object [(js "es-ES", VStr (js "hola"))])].

Definition no_ToString : jsvalue -> jsstring := fun _ => [].
Definition no_JSON_stringify : jsvalue -> jsstring := fun _ => [].
Definition no_builtin_message : exn -> jsstring := fun _ => [].

Definition cat_jpeg : Server.multer_file :=
  {| Server.originalname := js "cat.jpg";
     Server.mimetype := js "image/jpeg";
     Server.buffer := [255; 216; 255] |}.

Definition dog_png : Server.multer_file :=
  {| Server.originalname := js "dog.png";
     Server.mimetype := [];
     Server.buffer := [137; 80; 78; 71] |}.

Definition cat_file : Client.File :=
  {| Client.name := js "cat.jpg"; Client.type := js "image/jpeg";
     Client.size := 2 * 1024 * 1024; Client.bytes := [255; 216; 255] |}.

Definition dog_file : Client.File :=
  {| Client.name := js "dog.png"; Client.type := js "image/png";
     Client.size := 6 * 1024 * 1024; Client.bytes := [137; 80; 78; 71] |}.

Definition small_dog_file : Client.File :=
  {| Client.name := js "dog.png"; Client.type := js "image/png";
     Client.size := 1024; Client.bytes := [137; 80; 78; 71] |}.

Definition big_gif_file : Client.File :=
  {| Client.name := js "anim.gif"; Client.type := js "image/gif";
     Client.size := 6 * 1024 * 1024; Client.bytes := [71; 73; 70] |}.

Definition empty_state : Client.app_state :=
  {| Client.rows := []; Client.errors := []; Client.isProcessing := false |}.

(** A row whose last field ends in a carriage return, and a row of plain
    fields. *)
Definition katze_row : Client.Row :=
  {| Client.filename := js "cat.jpg";
     Client.english_alt := js "A cat, asleep.";
     Client.es_ES := js "Un gato."; Client.it_IT := js "Un gatto.";
     Client.nl_NL := js "Een kat."; Client.nl_BE := js "Een kat.";
     Client.fr_FR := js "Un chat."; Client.de_DE := js "Eine Katze.";
     Client.de_AT := js "Eine Katze." ++ [13] |}.

Definition hund_row : Client.Row :=
  {| Client.filename := js "dog.png";
     Client.english_alt := js "A dog.";
     Client.es_ES := js "Un perro."; Client.it_IT := js "Un cane.";
     Client.nl_NL := js "Een hond."; Client.nl_BE := js "Een hond.";
     Client.fr_FR := js "Un chien."; Client.de_DE := js "Ein Hund.";
     Client.de_AT := js "Ein Hund." |}.

(** A row with a comma, a quoted word and a line break in its fields. *)
Definition quoted_row : Client.Row :=
  {| Client.filename := js "cat.jpg";
     Client.english_alt := js "A cat, asleep.";
     Client.es_ES := js "Un " ++ quoted (js "gato") ++ js ".";
     Client.it_IT := js "Un gatto," ++ [13; 10] ++ js "che dorme.";
     Client.nl_NL := []; Client.nl_BE := [];
     Client.fr_FR := js "Un chat."; Client.de_DE := js "Eine Katze.";
     Client.de_AT := [10] |}.


Definition cat_item : jsvalue :=
  object [(js "filename", VStr (js "cat.jpg"));
          (js "english_alt", VStr (js "A cat."))].

End Samples.

(** ** Properties of the describe route *)

Section DescribeRoute.

Import Server.

Variable remote : nat -> chat_request -> option chat_completion.

(** When every call is answered, the loop pushes one item per file, in
    order, and logs one request per file. *)
Lemma describe_loop_answered (files : list multer_file) :
  ∀ results w,
    (∀ i f, files !! i = Some f →
            is_Some (remote (length w + i)%nat (describe_request f))) →
    ∃ items,
      describe_loop remote files results w
      = (Returned (results ++ items), w ++ map describe_request files)
      ∧ length items = length files
      ∧ ∀ i f, files !! i = Some f →
          ∃ c, remote (length w + i)%nat (describe_request f) = Some c
               ∧ items !! i = Some (described_item f c).
Proof.
  induction files as [|f files IH]; intros results w Hok.
  - exists []. rewrite !app_nil_r. by repeat split.
  - destruct (Hok 0%nat f eq_refl) as [c Hc].
    rewrite Nat.add_0_r in Hc.
    destruct (IH (results ++ [described_item f c])
                 (w ++ [describe_request f]))
      as (items & Hrun & Hlen & Hitems).
    { intros i g Hi. rewrite length_app. simpl.
      replace (length w + 1 + i)%nat with (length w + S i)%nat by lia.
      by apply Hok. }
    exists (described_item f c :: items). split; [|split].
    + cbn [describe_loop]. unfold bind, chat_create.
      rewrite Hc, Hrun. by rewrite <- !app_assoc.
    + simpl. by rewrite Hlen.
    + intros [|i] g Hi; simpl in Hi.
      * inversion Hi; subst g. exists c. by rewrite Nat.add_0_r.
      * destruct (Hitems i g Hi) as (c' & Hc' & Hi').
        exists c'. split; [|done].
        rewrite <- Hc'. f_equal. rewrite length_app. simpl. lia.
Qed.

(** One rejected call makes the loop throw, whatever was pushed before. *)
Lemma describe_loop_rejected (files : list multer_file) :
  ∀ results w i f,
    files !! i = Some f →
    remote (length w + i)%nat (describe_request f) = None →
    ∃ e w', describe_loop remote files results w = (Thrown e, w').
Proof.
  induction files as [|g files IH]; intros results w i f Hi Hnone.
  - done.
  - cbn [describe_loop]. unfold bind, chat_create.
    destruct (remote (length w) (describe_request g)) as [c|] eqn:Hg.
    + destruct i as [|i]; simpl in Hi.
      * inversion Hi; subst g. rewrite Nat.add_0_r in Hnone. congruence.
      * apply (IH _ _ i f Hi).
        rewrite length_app. simpl.
        by replace (length w + 1 + i)%nat with (length w + S i)%nat by lia.
    + by eexists _, _.
Qed.

(** With every call answered the route responds with the pushed items. *)
Lemma api_describe_answered (files : list multer_file) (w : world) :
  (∀ i f, files !! i = Some f →
          is_Some (remote (length w + i)%nat (describe_request f))) →
  ∃ results,
    api_describe remote (Some files) w
    = (json (object [(js "results", VArr results)]),
       w ++ map describe_request files)
    ∧ length results = length files
    ∧ ∀ i f, files !! i = Some f →
        ∃ c, remote (length w + i)%nat (describe_request f) = Some c
             ∧ results !! i = Some (described_item f c).
Proof.
  intros Hok. destruct files as [|f files].
  - exists []. simpl. rewrite app_nil_r. by repeat split.
  - destruct (describe_loop_answered (f :: files) [] w Hok)
      as (items & Hrun & Hlen & Hitems).
    exists items. split; [|by split].
    unfold api_describe, try_catch.
    cbn [from_option id length Nat.eqb]. unfold bind at 1. by rewrite Hrun.
Qed.

(** A rejected call turns into the route's one error response. *)
Lemma api_describe_rejected (files : list multer_file) (w : world) i f :
  files !! i = Some f →
  remote (length w + i)%nat (describe_request f) = None →
  ∃ w', api_describe remote (Some files) w
        = (send 500 (js "Describe error"), w').
Proof.
  intros Hi Hnone.
  destruct (describe_loop_rejected files [] w i f Hi Hnone) as (e & w' & Hrun).
  exists w'. unfold api_describe, try_catch.
  destruct files as [|g files]; [done|].
  cbn [from_option id length Nat.eqb]. unfold bind at 1. by rewrite Hrun.
Qed.

(** C6: with zero files the describe route answers successfully with an
    empty list of results, and calls the remote model not at all; this
    holds whether multer left an empty array or no array. *)
Theorem describe_no_files_empty_results (w : world) :
  api_describe remote (Some []) w
  = (json (object [(js "results", VArr [])]), w)
  ∧ api_describe remote None w
    = (json (object [(js "results", VArr [])]), w).
Proof. split; reflexivity. Qed.


(** C10: in a describe batch whose calls are all answered, the English
    description of an image is the fixed text "Descriptive alt text." when
    the content of the model's message is absent or the empty string, and
    the content with its surrounding white space trimmed otherwise. *)
Theorem describe_english_alt_default_or_trimmed
    (files : list multer_file) (w : world) i f c :
  (∀ j g, files !! j = Some g →
          is_Some (remote (length w + j)%nat (describe_request g))) →
  files !! i = Some f →
  remote (length w + i)%nat (describe_request f) = Some c →
  ∃ results r,
    fst (api_describe remote (Some files) w)
    = json (object [(js "results", VArr results)])
    ∧ results !! i = Some r
    ∧ member r (js "english_alt")
      = VStr (match first_content c with
              | None | Some [] => js "Descriptive alt text."
              | Some text => trim text
              end).
Proof.
  intros Hok Hi Hc.
  destruct (api_describe_answered files w Hok) as (results & Hrun & _ & Hit).
  destruct (Hit i f Hi) as (c' & Hc' & Hr).
  assert (c' = c) as -> by congruence.
  exists results, (described_item f c). rewrite Hrun.
  split; [done|]. split; [done|].
  change (member (described_item f c) (js "english_alt"))
    with (VStr (trim (str_or (first_content c)
                             (js "Descriptive alt text.")))).
  by destruct (first_content c) as [[|ch text]|].
Qed.

End DescribeRoute.


(** C10 at a batch of two files: the first reply has content to trim, the
    second has none. *)
Lemma describe_english_alt_default_or_trimmed_witness :
  let remote :=
    fun (n : nat) (_ : chat_request) =>
      Some (Samples.completion_with
              (if (n =? 0)%nat then Some (js " A cat. ") else None)) in
  let files := [Samples.cat_jpeg; Samples.dog_png] in
  (∃ results r,
     fst (Server.api_describe remote (Some files) [])
     = json (object [(js "results", VArr results)])
     ∧ results !! 0%nat = Some r
     ∧ member r (js "english_alt") = VStr (js "A cat."))
  ∧ (∃ results r,
       fst (Server.api_describe remote (Some files) [])
       = json (object [(js "results", VArr results)])
       ∧ results !! 1%nat = Some r
       ∧ member r (js "english_alt") = VStr (js "Descriptive alt text.")).
Proof.
  intros remote files. split.
  - apply (describe_english_alt_default_or_trimmed
             remote files [] 0%nat Samples.cat_jpeg
             (Samples.completion_with (Some (js " A cat. ")))).
    + intros j g _. by eexists.
    + reflexivity.
    + reflexivity.
  - apply (describe_english_alt_default_or_trimmed
             remote files [] 1%nat Samples.dog_png
             (Samples.completion_with None)).
    + intros j g _. by eexists.
    + reflexivity.
    + reflexivity.
Defined.

(** ** Properties of the translate route *)

Section TranslateRoute.

Import Server.

Variable remote : nat -> chat_request -> option chat_completion.
Variable JSON_parse : jsstring -> option jsvalue.
Variable ToString : jsvalue -> jsstring.

Local Abbreviation to_key := (to_key ToString).
Local Abbreviation row_of := (row_of ToString).
Local Abbreviation fill_locales := (fill_locales ToString).
Local Abbreviation translate_item := (translate_item remote JSON_parse ToString).
Local Abbreviation translate_loop := (translate_loop remote JSON_parse ToString).
Local Abbreviation api_translate := (api_translate remote JSON_parse ToString).

Lemma fill_locales_returned parsed locales :
  ∀ row w out w',
    fill_locales parsed locales row w = (Returned out, w') →
    w' = w
    ∧ (∀ k, k ∉ map to_key locales → out !! k = row !! k)
    ∧ (∀ lc, lc ∈ locales →
             out !! to_key lc
             = Some (or_else (member parsed (to_key lc)) (VStr []))).
Proof.
  induction locales as [|lc locales IH]; intros row w out w' Hrun.
  - inversion Hrun; subst. split; [done|]. split; [done|].
    intros lc Hlc. by apply elem_of_nil in Hlc.
  - cbn [fill_locales] in Hrun. unfold bind, get in Hrun.
    destruct (nullish parsed); [done|]. unfold ret in Hrun at 1.
    apply IH in Hrun as (-> & Hframe & Hset).
    split; [done|]. split.
    + intros k Hk. rewrite map_cons, not_elem_of_cons in Hk.
      destruct Hk as [Hne Hk]. rewrite (Hframe k Hk).
      by rewrite lookup_insert_ne.
    + intros lc' Hlc'. apply elem_of_cons in Hlc' as [->|Hin].
      * destruct (decide (to_key lc ∈ map to_key locales)) as [Hin|Hout].
        -- apply list_elem_of_fmap in Hin as (lc' & Heq & Hin).
           rewrite Heq. by apply Hset.
        -- rewrite (Hframe _ Hout). by rewrite lookup_insert_eq.
      * by apply Hset.
Qed.

Lemma fill_locales_total parsed locales :
  nullish parsed = false →
  ∀ row w, ∃ out, fill_locales parsed locales row w = (Returned out, w).
Proof.
  intros Hp. induction locales as [|lc locales IH]; intros row w.
  - by exists row.
  - cbn [fill_locales]. unfold bind, get. rewrite Hp. apply IH.
Qed.

Lemma translate_item_returned it locales w r w' :
  translate_item it locales w = (Returned r, w') →
  w' = w ++ [translate_request (member it (js "english_alt")) locales]
  ∧ ∃ c parsed row,
      remote (length w)
             (translate_request (member it (js "english_alt")) locales)
      = Some c
      ∧ JSON_parse (str_or (first_content c) (js "{}")) = Some parsed
      ∧ r = VObj row
      ∧ row_of locales it parsed row.
Proof.
  unfold translate_item, bind, get, chat_create.
  destruct (nullish it); [done|]. unfold ret, throw.
  destruct (remote _ _) as [c|]; [|done].
  destruct (JSON_parse _) as [parsed|] eqn:Hp; [|done].
  destruct (fill_locales _ _ _ _) as [[row|e] w''] eqn:Hfill; [|done].
  intros Heq. inversion Heq; subst.
  apply fill_locales_returned in Hfill as (-> & Hframe & Hset).
  split; [done|]. exists c, parsed, row. by repeat split.
Qed.

Lemma translate_item_total it locales w c parsed :
  nullish it = false →
  remote (length w) (translate_request (member it (js "english_alt")) locales)
  = Some c →
  JSON_parse (str_or (first_content c) (js "{}")) = Some parsed →
  nullish parsed = false →
  ∃ r w', translate_item it locales w = (Returned r, w').
Proof.
  intros Hit Hc Hp Hnn.
  unfold translate_item, bind, get, chat_create.
  rewrite Hit. unfold ret, throw. rewrite Hc, Hp.
  destruct (fill_locales_total parsed locales Hnn
              (blank_row (member it (js "filename"))
                         (member it (js "english_alt")))
              (w ++ [translate_request (member it (js "english_alt")) locales]))
    as [out ->].
  by eexists _, _.
Qed.


(** What a returned loop pushed: one row per item, each built from its
    item and from the parsed reply to the call issued for it. *)
Lemma translate_loop_returned items locales :
  ∀ rows w out w',
    translate_loop items locales rows w = (Returned out, w') →
    ∃ new,
      out = rows ++ new
      ∧ w' = w ++ map (fun it => translate_request
                                   (member it (js "english_alt")) locales)
                      items
      ∧ length new = length items
      ∧ ∀ i it, items !! i = Some it →
          ∃ c parsed row,
            remote (length w + i)%nat
                   (translate_request (member it (js "english_alt")) locales)
            = Some c
            ∧ JSON_parse (str_or (first_content c) (js "{}")) = Some parsed
            ∧ new !! i = Some (VObj row)
            ∧ row_of locales it parsed row.
Proof.
  induction items as [|it items IH]; intros rows w out w' Hrun.
  - inversion Hrun; subst. exists []. rewrite !app_nil_r. by repeat split.
  - cbn [Server.translate_loop] in Hrun. unfold bind at 1 in Hrun.
    destruct (translate_item it locales w) as [[r|e] w1] eqn:Hitem; [|done].
    apply translate_item_returned in Hitem
      as (-> & c & parsed & row & Hc & Hp & -> & Hrow).
    apply IH in Hrun as (new & -> & -> & Hlen & Hnew).
    exists (VObj row :: new). split; [by rewrite <- app_assoc|].
    split; [by rewrite <- app_assoc|].
    split; [simpl; by rewrite Hlen|].
    intros [|i] it' Hi; simpl in Hi.
    + inversion Hi; subst it'. exists c, parsed, row.
      rewrite Nat.add_0_r. by split_and!.
    + destruct (Hnew i it' Hi)
        as (c' & parsed' & row' & Hc' & Hp' & Hi' & Hr').
      exists c', parsed', row'. split; [|by split_and!].
      rewrite <- Hc'. f_equal. rewrite length_app. simpl. lia.
Qed.

(** The loop returns when no item is null, every call is answered and every
    reply parses to something other than null. *)
Lemma translate_loop_total items locales :
  ∀ rows w,
    (∀ i it, items !! i = Some it →
       nullish it = false
       ∧ ∃ c parsed,
           remote (length w + i)%nat
                  (translate_request (member it (js "english_alt")) locales)
           = Some c
           ∧ JSON_parse (str_or (first_content c) (js "{}")) = Some parsed
           ∧ nullish parsed = false) →
    ∃ out w', translate_loop items locales rows w = (Returned out, w').
Proof.
  induction items as [|it items IH]; intros rows w Hok.
  - by eexists _, _.
  - destruct (Hok 0%nat it eq_refl) as (Hit & c & parsed & Hc & Hp & Hnn).
    rewrite Nat.add_0_r in Hc.
    destruct (translate_item_total it locales w c parsed Hit Hc Hp Hnn)
      as (r & w1 & Hitem).
    pose proof Hitem as Hw. apply translate_item_returned in Hw as [-> _].
    cbn [translate_loop]. unfold bind at 1. rewrite Hitem.
    apply IH. intros i it' Hi.
    rewrite length_app. simpl.
    replace (length w + 1 + i)%nat with (length w + S i)%nat by lia.
    by apply Hok.
Qed.

(** A loop that throws leaves no rows: the route answers with its one
    error response. *)
Lemma api_translate_arrays body items locales w :
  member (or_else body (object [])) (js "items") = VArr items →
  member (or_else body (object [])) (js "locales") = VArr locales →
  api_translate body w
  = match translate_loop items locales [] w with
    | (Returned rows, w') => (json (object [(js "rows", VArr rows)]), w')
    | (Thrown _, w') => (send 500 (js "Translate error"), w')
    end.
Proof.
  intros Hitems Hlocales. unfold api_translate, try_catch.
  rewrite Hitems, Hlocales. cbn [isArray negb orb elements].
  unfold bind at 1. by destruct (translate_loop _ _ _ _) as [[rows|e] w'].
Qed.


(** A value with an array-valued member is an object, hence truthy. *)
Lemma or_else_with_member body k l :
  member body k = VArr l → or_else body (object []) = body.
Proof. by destruct body. Qed.

Lemma rows_body_inj rows rows' :
  json (object [(js "rows", VArr rows)])
  = json (object [(js "rows", VArr rows')]) →
  rows = rows'.
Proof.
  intros Heq.
  apply (f_equal (fun res => match res with
                             | json b => member b (js "rows")
                             | send _ _ => VUndef
                             end)) in Heq.
  change (VArr rows = VArr rows') in Heq. congruence.
Qed.

Lemma blank_row_locale filename english_alt lc :
  lc ∈ LOCALES → blank_row filename english_alt !! lc = Some (VStr []).
Proof.
  unfold LOCALES. rewrite !elem_of_cons, elem_of_nil.
  intros [->|[->|[->|[->|[->|[->|[->|[]]]]]]]]; reflexivity.
Qed.

(** Whatever names the request lists, a row holds the seven locale keys of
    its literal. *)
Lemma row_of_holds_locale locales it parsed row lc :
  row_of locales it parsed row → lc ∈ LOCALES → is_Some (row !! lc).
Proof.
  intros [Hframe Hset] Hlc.
  destruct (decide (lc ∈ map to_key locales)) as [Hin|Hout].
  - apply list_elem_of_fmap in Hin as (lc' & -> & Hin).
    rewrite (Hset lc' Hin). by eexists.
  - rewrite (Hframe lc Hout), (blank_row_locale _ _ _ Hlc). by eexists.
Qed.

(** C1: take a translate request whose items form an array and whose
    locales are the seven fixed ones.  Every row the route returns holds
    all seven locale keys: each holds the translation the parsed reply
    gives for it and, where the parsed reply left the locale out, the
    empty string.  No omission makes the item or the batch fail: when no
    item is null, every call is answered and every reply parses to
    something other than null, the route returns the rows. *)
Theorem translate_rows_hold_every_locale body items w :
  member body (js "items") = VArr items →
  member body (js "locales") = VArr (map VStr LOCALES) →
  (∀ rows,
     fst (api_translate body w) = json (object [(js "rows", VArr rows)]) →
     length rows = length items
     ∧ ∀ i it, items !! i = Some it →
         ∃ c parsed row,
           remote (length w + i)%nat
                  (translate_request (member it (js "english_alt"))
                                     (map VStr LOCALES))
           = Some c
           ∧ JSON_parse (str_or (first_content c) (js "{}")) = Some parsed
           ∧ rows !! i = Some (VObj row)
           ∧ ∀ lc, lc ∈ LOCALES →
               row !! lc = Some (or_else (member parsed lc) (VStr []))
               ∧ (member parsed lc = VUndef → row !! lc = Some (VStr [])))
  ∧ ((∀ i it, items !! i = Some it →
        nullish it = false
        ∧ ∃ c parsed,
            remote (length w + i)%nat
                   (translate_request (member it (js "english_alt"))
                                      (map VStr LOCALES))
            = Some c
            ∧ JSON_parse (str_or (first_content c) (js "{}")) = Some parsed
            ∧ nullish parsed = false) →
     ∃ rows,
       fst (api_translate body w) = json (object [(js "rows", VArr rows)])).
Proof.
  intros Hitems Hlocales.
  assert (api_translate body w
          = match translate_loop items (map VStr LOCALES) [] w with
            | (Returned rows, w') =>
                (json (object [(js "rows", VArr rows)]), w')
            | (Thrown _, w') => (send 500 (js "Translate error"), w')
            end) as Hroute.
  { apply api_translate_arrays;
      by rewrite (or_else_with_member _ _ _ Hitems). }
  rewrite Hroute. split.
  - intros rows Hres.
    destruct (translate_loop _ _ _ _) as [[out|e] w'] eqn:Hloop; [|done].
    apply rows_body_inj in Hres as ->.
    apply translate_loop_returned in Hloop as (new & -> & _ & Hlen & Hnew).
    split; [done|]. intros i it Hi.
    destruct (Hnew i it Hi) as (c & parsed & row & Hc & Hp & Hrow & _ & Hset).
    exists c, parsed, row. split_and!; [done..|].
    intros lc Hlc.
    assert (row !! lc = Some (or_else (member parsed lc) (VStr []))) as Hlk.
    { apply (Hset (VStr lc)). by apply list_elem_of_fmap_2. }
    split; [done|]. intros Homit. by rewrite Hlk, Homit.
  - intros Hok.
    destruct (translate_loop_total items (map VStr LOCALES) [] w Hok)
      as (out & w' & ->).
    by exists out.
Qed.

(** C9, as amended: take a translate request whose items and locales are
    arrays and whose locales name neither [filename] nor [english_alt] (the
    seven fixed locales are such a list).  Every row the route returns
    carries the filename and the English description of the item at its
    position, as that item gave them. *)
Theorem translate_keeps_filename_and_english_alt body items locales w rows :
  member body (js "items") = VArr items →
  member body (js "locales") = VArr locales →
  js "filename" ∉ map to_key locales →
  js "english_alt" ∉ map to_key locales →
  fst (api_translate body w) = json (object [(js "rows", VArr rows)]) →
  length rows = length items
  ∧ ∀ i it, items !! i = Some it →
      ∃ row,
        rows !! i = Some (VObj row)
        ∧ row !! js "filename" = Some (member it (js "filename"))
        ∧ row !! js "english_alt" = Some (member it (js "english_alt")).
Proof.
  intros Hitems Hlocales Hfn Halt.
  rewrite (api_translate_arrays body items locales w)
    by (by rewrite (or_else_with_member _ _ _ Hitems)).
  destruct (translate_loop _ _ _ _) as [[out|e] w'] eqn:Hloop; [|done].
  intros Hres. apply rows_body_inj in Hres as ->.
  apply translate_loop_returned in Hloop as (new & -> & _ & Hlen & Hnew).
  split; [done|]. intros i it Hi.
  destruct (Hnew i it Hi) as (c & parsed & row & _ & _ & Hrow & Hframe & _).
  exists row. split; [done|].
  by rewrite (Hframe _ Hfn), (Hframe _ Halt).
Qed.


End TranslateRoute.

(** C1 at one item, answered with the text of an object that translates
    into Spanish only. *)
Lemma translate_rows_hold_every_locale_witness :
  let body :=
    object [(js "items", VArr [Samples.cat_item]);
            (js "locales", VArr (map VStr Server.LOCALES))] in
  let remote :=
    Samples.remote_always
      (Samples.completion_with (Some Samples.spanish_only)) in
  let api := Server.api_translate
               remote (Samples.parse_table Samples.reply_table)
               Samples.no_ToString in
  ∃ rows row,
    fst (api body []) = json (object [(js "rows", VArr rows)])
    ∧ rows !! 0%nat = Some (VObj row)
    ∧ row !! js "es-ES" = Some (VStr (js "hola"))
    ∧ row !! js "fr-FR" = Some (VStr []).
Proof.
  intros body remote api.
  destruct (translate_rows_hold_every_locale
              remote (Samples.parse_table Samples.reply_table)
              Samples.no_ToString body [Samples.cat_item] []
              eq_refl eq_refl) as [Hrows Hsome].
  destruct Hsome as [rows Hres].
  { intros [|i] it Hi; [|done]. inversion Hi; subst it.
    split; [reflexivity|].
    exists (Samples.completion_with (Some Samples.spanish_only)),
           (object [(js "es-ES", VStr (js "hola"))]).
    split; [reflexivity|]. split; [vm_compute; reflexivity|reflexivity]. }
  destruct (Hrows rows Hres) as [_ Hat].
  destruct (Hat 0%nat Samples.cat_item eq_refl)
    as (c & parsed & row & Hc & Hp & Hrow & Hlc).
  exists rows, row. split; [exact Hres|]. split; [exact Hrow|].
  assert (parsed = object [(js "es-ES", VStr (js "hola"))]) as ->.
  { inversion Hc; subst c. vm_compute in Hp. by inversion Hp. }
  split.
  - apply (Hlc (js "es-ES")). apply list_elem_of_here.
  - apply (Hlc (js "fr-FR")); [|reflexivity].
    do 4 apply list_elem_of_further. apply list_elem_of_here.
Defined.

(** C9 at one item and the seven fixed locales. *)
Lemma translate_keeps_filename_and_english_alt_witness :
  let body :=
    object [(js "items", VArr [Samples.cat_item]);
            (js "locales", VArr (map VStr Server.LOCALES))] in
  let remote :=
    Samples.remote_always
      (Samples.completion_with (Some Samples.spanish_only)) in
  let row :=
    <[js "es-ES" := VStr (js "hola")]>
      (Server.blank_row (VStr (js "cat.jpg")) (VStr (js "A cat."))) in
  length [VObj row] = 1%nat
  ∧ ∀ i it, [Samples.cat_item] !! i = Some it →
      ∃ row',
        [VObj row] !! i = Some (VObj row')
        ∧ row' !! js "filename" = Some (member it (js "filename"))
        ∧ row' !! js "english_alt" = Some (member it (js "english_alt")).
Proof.
  intros body remote row.
  apply (translate_keeps_filename_and_english_alt
           remote (Samples.parse_table Samples.reply_table)
           Samples.no_ToString body [Samples.cat_item]
           (map VStr Server.LOCALES) [] [VObj row]).
  - reflexivity.
  - reflexivity.
  - apply (bool_decide_unpack _). vm_compute. exact I.
  - apply (bool_decide_unpack _). vm_compute. exact I.
  - vm_compute. reflexivity.
Defined.

(** C9 as first stated fails: a request whose locales name [filename] has
    the filename of its row replaced by what the reply gives under that
    name, here nothing, hence the empty string. *)
Lemma translate_overwrites_filename_counterexample :
  let body :=
    object [(js "items", VArr [Samples.cat_item]);
            (js "locales", VArr [VStr (js "filename")])] in
  let remote := Samples.remote_always (Samples.completion_with None) in
  let api := Server.api_translate
               remote (Samples.parse_table Samples.reply_table)
               Samples.no_ToString in
  ∃ row,
    fst (api body []) = json (object [(js "rows", VArr [VObj row])])
    ∧ member Samples.cat_item (js "filename") = VStr (js "cat.jpg")
    ∧ row !! js "filename" = Some (VStr [])
    ∧ row !! js "filename" ≠ Some (member Samples.cat_item (js "filename")).
Proof.
  intros body remote api.
  exists (<[js "filename" := VStr []]>
            (Server.blank_row (VStr (js "cat.jpg")) (VStr (js "A cat.")))).
  split; [vm_compute; reflexivity|].
  split; [reflexivity|]. split; [reflexivity|].
  vm_compute. discriminate.
Qed.


(** The shape check on bodies that are missing, not objects, or objects
    with a field that is no array: status 400 each time, nothing logged. *)
Example translate_rejects_malformed_bodies :
  let api := Server.api_translate
               (Samples.remote_always (Samples.completion_with None))
               (Samples.parse_table Samples.reply_table)
               Samples.no_ToString in
  Forall (fun body => api body [] = (send 400 (js "Bad request"), []))
         [VUndef; VNull; VStr (js "items"); VNum 7; VArr [];
          object [];
          object [(js "items", VArr [])];
          object [(js "locales", VArr [])];
          object [(js "items", VStr (js "a")); (js "locales", VArr [])];
          object [(js "items", VArr []); (js "locales", object [])]].
Proof. by repeat constructor. Qed.

(** ** Properties of the validation step *)

Section Validation.

Import Client.

Lemma validate_file_step errs valid f :
  validate_file (errs, valid) f
  = (errs ++ option_list (rejection f),
     valid ++ (if accepted f then [f] else [])).
Proof.
  unfold validate_file, rejection, accepted.
  destruct (bool_decide (type f ∈ SUPPORTED_MIME));
    destruct (MAX_SIZE_BYTES <? size f); cbn [negb andb option_list];
    by rewrite ?app_nil_r.
Qed.

Lemma validate_fold files :
  ∀ errs valid,
    foldl validate_file (errs, valid) files
    = (errs ++ omap rejection files,
       valid ++ filter (λ f, accepted f) files).
Proof.
  induction files as [|f files IH]; intros errs valid.
  - by rewrite !app_nil_r.
  - cbn [foldl]. rewrite validate_file_step, IH, filter_cons.
    rewrite <- !app_assoc. f_equal.
    + f_equal. cbn [omap list_omap]. by destruct (rejection f).
    + f_equal. by destruct (accepted f).
Qed.

(** The two arrays after the loop: the messages of the rejected files and
    the accepted files, both in the order of the batch. *)
Lemma validate_partition files :
  validate files = (omap rejection files, filter (λ f, accepted f) files).
Proof. apply (validate_fold files [] []). Qed.



End Validation.




(** ** Properties of the pipeline *)

Section PipelineProperties.

Import Client.

Variable remote : nat -> chat_request -> option chat_completion.
Variable JSON_parse : jsstring -> option jsvalue.
Variable ToString : jsvalue -> jsstring.
Variable JSON_stringify : jsvalue -> jsstring.
Variable builtin_message : exn -> jsstring.

Local Abbreviation handleFiles :=
  (handleFiles remote JSON_parse ToString JSON_stringify builtin_message).

Lemma batchDescribe_rejected files w w' :
  Server.api_describe remote (Some (map form_part files)) w
  = (send 500 (js "Describe error"), w') →
  batchDescribe remote JSON_parse JSON_stringify files w
  = (Thrown (Error (js "Describe API failed (500). Describe error")), w').
Proof.
  intros Hroute. unfold batchDescribe, bind, fetch. by rewrite Hroute.
Qed.

(** The state a failed describe call leaves. *)
Lemma handleFiles_describe_rejected files st w w' :
  snd (validate files) ≠ [] →
  Server.api_describe remote (Some (map form_part (snd (validate files)))) w
  = (send 500 (js "Describe error"), w') →
  handleFiles files st w
  = ({| rows := rows st;
        errors := (errors st ++ fst (validate files))
                  ++ [js "Describe API failed (500). Describe error"];
        isProcessing := false |}, w').
Proof.
  intros Hvalid Hroute. unfold Client.handleFiles.
  destruct (validate files) as [newErrors validFiles]. cbn [fst snd] in *.
  destruct validFiles as [|g validFiles]; [done|].
  cbn [length Nat.eqb]. unfold try_catch, bind.
  by rewrite (batchDescribe_rejected _ _ _ Hroute).
Qed.

(** C4: when the remote call is rejected for any image of a describe batch,
    the route answers the whole request with the one status-500 response,
    which carries a text and no per-image results; in the browser no row
    is added to the table, and exactly one message is appended for the
    failure, after the messages of the validation step. *)
Theorem describe_failure_fails_whole_batch files st w i f :
  snd (validate files) !! i = Some f →
  remote (length w + i)%nat (Server.describe_request (form_part f)) = None →
  (∃ w',
     Server.api_describe remote (Some (map form_part (snd (validate files)))) w
     = (send 500 (js "Describe error"), w'))
  ∧ let st' := fst (handleFiles files st w) in
    rows st' = rows st
    ∧ errors st'
      = errors st ++ fst (validate files)
        ++ [js "Describe API failed (500). Describe error"].
Proof.
  intros Hi Hnone.
  destruct (api_describe_rejected
              remote (map form_part (snd (validate files))) w i (form_part f))
    as [w' Hroute].
  { by rewrite list_lookup_fmap, Hi. }
  { done. }
  split; [by exists w'|].
  rewrite (handleFiles_describe_rejected files st w w');
    [|by intros Hnil; rewrite Hnil in Hi|done].
  cbn [fst rows errors]. split; [done|]. by rewrite <- app_assoc.
Qed.

End PipelineProperties.


(** A batch of one valid file, described and translated: one row reaches
    the table, with the Spanish text of the reply and an empty string for
    French, and no message is surfaced. *)
Example handleFiles_one_file_through :
  let remote (n : nat) (_ : chat_request) :=
    Some (Samples.completion_with
            (if (n =? 0)%nat then Some (js "A cat. ")
             else Some Samples.spanish_only)) in
  let st' :=
    fst (Client.handleFiles
           remote (Samples.parse_table Samples.reply_table)
           Samples.no_ToString Samples.no_JSON_stringify
           Samples.no_builtin_message [Samples.cat_file]
           Samples.empty_state []) in
  Client.errors st' = []
  ∧ Client.isProcessing st' = false
  ∧ map (fun row => (member row (js "filename"),
                     member row (js "english_alt"),
                     member row (js "es-ES"),
                     member row (js "fr-FR"))) (Client.rows st')
    = [(VStr (js "cat.jpg"), VStr (js "A cat."), VStr (js "hola"),
        VStr [])].
Proof. vm_compute. by split_and!. Qed.

(** C4 at a batch of two valid files and one GIF, the second remote call
    being rejected. *)
Lemma describe_failure_fails_whole_batch_witness :
  let remote :=
    Samples.remote_failing_at 1 (Samples.completion_with None) in
  let files :=
    [Samples.cat_file; Samples.big_gif_file; Samples.small_dog_file] in
  let st' :=
    fst (Client.handleFiles
           remote (Samples.parse_table Samples.reply_table)
           Samples.no_ToString Samples.no_JSON_stringify
           Samples.no_builtin_message files Samples.empty_state []) in
  Client.rows st' = []
  ∧ Client.errors st'
    = [Client.unsupported_message Samples.big_gif_file;
       js "Describe API failed (500). Describe error"].
Proof.
  intros remote files st'.
  apply (describe_failure_fails_whole_batch
           remote (Samples.parse_table Samples.reply_table)
           Samples.no_ToString Samples.no_JSON_stringify
           Samples.no_builtin_message files Samples.empty_state []
           1%nat Samples.small_dog_file).
  - reflexivity.
  - reflexivity.
Defined.

(** ** Properties of the CSV exporter *)

Section CsvExport.

Import Client.

Lemma needs_quoting_cons c v :
  needs_quoting (c :: v) = false →
  (c =? QUOTE) = false ∧ (c =? COMMA) = false ∧ (c =? LF) = false
  ∧ needs_quoting v = false.
Proof.
  unfold needs_quoting. cbn [existsb]. rewrite !orb_false_iff. tauto.
Qed.

(** A run of characters that need no quoting and hold no carriage return is
    taken into the field as it stands. *)
Lemma csv_records_plain_run v :
  ∀ st field record k,
    st ≠ Quoted →
    needs_quoting v = false →
    existsb (fun c => c =? CR) v = false →
    csv_records st field record (v ++ k)
    = csv_records (match v with [] => st | _ => Unquoted end)
                  (rev v ++ field) record k.
Proof.
  induction v as [|c v IH]; intros st field record k Hst Hq Hcr; [done|].
  apply needs_quoting_cons in Hq as (Hc1 & Hc2 & Hc3 & Hq).
  cbn [existsb] in Hcr. apply orb_false_iff in Hcr as [Hc4 Hcr].
  transitivity (csv_records Unquoted (c :: field) record (v ++ k)).
  { cbn [app csv_records]. rewrite Hc1, Hc2, Hc3, Hc4. by destruct st. }
  rewrite IH by done. cbn [rev]. rewrite <- app_assoc. by destruct v.
Qed.

Lemma csv_records_quoted_run v :
  ∀ field record k,
    csv_records Quoted field record (double_quotes v ++ QUOTE :: k)
    = csv_records QuoteSeen (rev v ++ field) record k.
Proof.
  induction v as [|c v IH]; intros field record k.
  - cbn. done.
  - unfold double_quotes. cbn [flat_map]. fold (double_quotes v).
    destruct (c =? QUOTE) eqn:Hc.
    + apply N.eqb_eq in Hc as ->. cbn [app].
      change (csv_records Quoted field record (QUOTE :: QUOTE :: double_quotes v ++ QUOTE :: k))
        with (csv_records Quoted (QUOTE :: field) record (double_quotes v ++ QUOTE :: k)).
      rewrite IH. cbn [rev]. by rewrite <- app_assoc.
    + cbn [app csv_records]. rewrite Hc. rewrite IH. cbn [rev]. by rewrite <- app_assoc.
Qed.

(** At the end of a field the reader does the same in every state but
    [Quoted]. *)
Lemma csv_records_at_delimiter st field record k :
  st ≠ Quoted →
  (st = FieldStart → record = [] → k ≠ []) →
  ends_field k →
  csv_records st field record k = csv_records Unquoted field record k.
Proof.
  intros Hst Hne Hk. destruct k as [|c k].
  - destruct st, record; try done. by destruct Hne.
  - destruct Hk as [->| ->]; by destruct st.
Qed.

(** One escaped field, read back. *)
Lemma csv_records_field v record k :
  bare_carriage_return v = false →
  ends_field k →
  (record = [] → v = [] → k ≠ []) →
  csv_records FieldStart [] record (escape (Some v) ++ k)
  = csv_records Unquoted (rev v) record k.
Proof.
  intros Hsafe Hk Hne. unfold escape, bare_carriage_return in *.
  cbn [from_option id]. destruct (needs_quoting v) eqn:Hq.
  - rewrite <- !app_assoc.
    change (csv_records FieldStart [] record ([QUOTE] ++ double_quotes v ++ [QUOTE] ++ k))
      with (csv_records Quoted [] record (double_quotes v ++ QUOTE :: k)).
    rewrite csv_records_quoted_run, app_nil_r.
    by apply csv_records_at_delimiter.
  - rewrite csv_records_plain_run, app_nil_r by done.
    apply csv_records_at_delimiter; [by destruct v| |done].
    destruct v; [by auto|done].
Qed.

Lemma line_of_cons v v' vs :
  line_of (v :: v' :: vs) = escape (Some v) ++ [COMMA] ++ line_of (v' :: vs).
Proof. reflexivity. Qed.

(** One exported line, read back. *)
Lemma csv_records_line vs :
  ∀ record k,
    vs ≠ [] →
    Forall (fun v => bare_carriage_return v = false) vs →
    (k = [] ∨ ∃ k', k = LF :: k') →
    (record = [] → k = [] → (2 ≤ length vs)%nat) →
    csv_records FieldStart [] record (line_of vs ++ k)
    = (rev record ++ vs) :: csv_records FieldStart [] [] (tail k).
Proof.
  induction vs as [|v vs IH]; intros record k Hvs Hsafe Hk Hlen; [done|].
  apply Forall_cons in Hsafe as [Hv Hsafe].
  destruct vs as [|v' vs].
  - change (line_of [v]) with (escape (Some v)).
    rewrite csv_records_field; [|done| |].
    + destruct Hk as [->|[k' ->]]; cbn [csv_records tail];
        by rewrite ?rev_involutive, <- ?rev_app_distr.
    + destruct Hk as [->|[k' ->]]; [done|by right].
    + intros Hr _ ->. specialize (Hlen Hr eq_refl). simpl in Hlen. lia.
  - rewrite line_of_cons, <- !app_assoc.
    rewrite csv_records_field; [|done|by cbn; left|by intros _ _ ?].
    change (csv_records Unquoted (rev v) record ([COMMA] ++ line_of (v' :: vs) ++ k))
      with (csv_records FieldStart [] (rev (rev v) :: record) (line_of (v' :: vs) ++ k)).
    rewrite rev_involutive, IH; [|done|done|done|done].
    cbn [rev]. by rewrite <- app_assoc.
Qed.

(** A whole document, read back. *)
Lemma csv_records_document vss :
  vss ≠ [] →
  Forall (fun vs => (2 ≤ length vs)%nat
                    ∧ Forall (fun v => bare_carriage_return v = false) vs)
         vss →
  csv_records FieldStart [] [] (join [LF] (map line_of vss)) = vss.
Proof.
  induction vss as [|vs vss IH]; intros Hne Hall; [done|].
  apply Forall_cons in Hall as [[Hlen Hsafe] Hall].
  assert (vs ≠ []) as Hvs by (intros ->; simpl in Hlen; lia).
  destruct vss as [|vs' vss].
  - cbn [map join]. rewrite <- (app_nil_r (line_of vs)).
    by rewrite csv_records_line; [|done|done|left|].
  - change (join [LF] (map line_of (vs :: vs' :: vss)))
      with (line_of vs ++ [LF] ++ join [LF] (map line_of (vs' :: vss))).
    rewrite csv_records_line; [|done|done|by right; eexists|done].
    cbn [app tail rev]. by rewrite IH.
Qed.

Lemma Row_values_eq r :
  Row_values r
  = [filename r; english_alt r; es_ES r; it_IT r; nl_NL r; nl_BE r; fr_FR r;
     de_DE r; de_AT r].
Proof. reflexivity. Qed.

Lemma toCSV_lines rows :
  toCSV rows = join [LF] (map line_of (headers :: map Row_values rows)).
Proof.
  unfold toCSV. cbn [map app]. f_equal. f_equal.
  rewrite map_map. apply map_ext. intros r.
  unfold line_of, Row_values. by rewrite map_map.
Qed.

(** Where no field is written bare with a carriage return in it, reading
    the exported document back gives the header record and then one record
    per row, its nine fields being those of the row, whatever commas,
    quotes and line feeds they hold. *)
Theorem export_round_trip (rows : list Row) :
  (∀ r v, r ∈ rows → v ∈ Row_values r → bare_carriage_return v = false) →
  csv_read (download_text rows) = headers :: map Row_values rows.
Proof.
  intros Hsafe.
  change (csv_read (download_text rows))
    with (csv_records FieldStart [] [] (toCSV rows)).
  rewrite toCSV_lines. apply csv_records_document; [done|].
  apply Forall_cons. split.
  - split; [cbn; lia|]. by repeat constructor.
  - apply Forall_forall. intros vs Hvs.
    apply list_elem_of_fmap in Hvs as (r & -> & Hr).
    split; [rewrite Row_values_eq; cbn; lia|].
    apply Forall_forall. intros v Hv. by apply (Hsafe r).
Qed.

End CsvExport.

(** The round trip at a row with a comma, quotes and line breaks in its
    fields, followed by a row of plain fields. *)
Lemma export_round_trip_witness :
  csv_read (Client.download_text [Samples.quoted_row; Samples.hund_row])
  = Client.headers
    :: [Row_values Samples.quoted_row; Row_values Samples.hund_row].
Proof.
  apply (export_round_trip [Samples.quoted_row; Samples.hund_row]).
  intros r v Hr Hv.
  apply elem_of_cons in Hr as [->|Hr];
    [|apply elem_of_cons in Hr as [->|Hr]; [|by apply elem_of_nil in Hr]].
  - revert v Hv. apply Forall_forall. by repeat constructor.
  - revert v Hv. apply Forall_forall. by repeat constructor.
Defined.

(** C2: the round trip the claim states fails at a row whose last field
    ends in a carriage return and is followed by another row.  [escape]
    writes that field without quotes, the line feed that ends the line
    follows it, and the reader takes the two characters for a CRLF line
    ending: the field comes back without its last character. *)
Theorem export_loses_trailing_carriage_return :
  let rows := [Samples.katze_row; Samples.hund_row] in
  Row_values Samples.katze_row !! 8%nat = Some (js "Eine Katze." ++ [13])
  ∧ (csv_read (Client.download_text rows) !! 1%nat) ≫= (.!! 8%nat)
    = Some (js "Eine Katze.")
  ∧ csv_read (Client.download_text rows)
    ≠ Client.headers :: map Row_values rows.
Proof.
  intros rows. split; [reflexivity|]. split; [reflexivity|].
  intros Heq.
  apply (f_equal (fun records => (records !! 1%nat) ≫= (.!! 8%nat))) in Heq.
  vm_compute in Heq. discriminate.
Qed.

(** ** More on the describe route: the calls it issues *)

Section DescribeCalls.

Import Server.

Variable remote : nat -> chat_request -> option chat_completion.

(** The loop throws at the first rejected call and issues no call after
    it. *)
Lemma describe_loop_stops files :
  ∀ results w i f,
    files !! i = Some f →
    (∀ j g, (j < i)%nat → files !! j = Some g →
            is_Some (remote (length w + j)%nat (describe_request g))) →
    remote (length w + i)%nat (describe_request f) = None →
    describe_loop remote files results w
    = (Thrown RemoteError, w ++ map describe_request (take (S i) files)).
Proof.
  induction files as [|g files IH]; intros results w i f Hi Hbefore Hnone;
    [done|].
  cbn [describe_loop]. unfold bind, chat_create.
  destruct i as [|i]; simpl in Hi.
  - inversion Hi; subst g. rewrite Nat.add_0_r in Hnone. rewrite Hnone.
    cbn [take map]. by rewrite take_0.
  - destruct (Hbefore 0%nat g) as [c Hc]; [lia|done|].
    rewrite Nat.add_0_r in Hc. rewrite Hc.
    rewrite (IH _ _ i f Hi).
    + cbn [take map]. by rewrite <- app_assoc.
    + intros j h Hj Hh. rewrite length_app. simpl.
      replace (length w + 1 + j)%nat with (length w + S j)%nat by lia.
      apply Hbefore; [lia|done].
    + rewrite length_app. simpl.
      by replace (length w + 1 + i)%nat with (length w + S i)%nat by lia.
Qed.

(** X2: the describe route stops at the first rejected call: the files
    before it have been sent, in order, the file of the rejected call is
    the last one sent, no later file is sent at all, and the answer is the
    status-500 response. *)
Theorem describe_stops_at_first_rejection files w i f :
  files !! i = Some f →
  (∀ j g, (j < i)%nat → files !! j = Some g →
          is_Some (remote (length w + j)%nat (describe_request g))) →
  remote (length w + i)%nat (describe_request f) = None →
  api_describe remote (Some files) w
  = (send 500 (js "Describe error"),
     w ++ map describe_request (take (S i) files)).
Proof.
  intros Hi Hbefore Hnone.
  unfold api_describe, try_catch.
  destruct files as [|g files]; [done|].
  cbn [from_option id length Nat.eqb]. unfold bind at 1.
  by rewrite (describe_loop_stops (g :: files) [] w i f Hi Hbefore Hnone).
Qed.

Lemma trimStart_white text :
  forallb is_white_space text = true → trimStart text = [].
Proof.
  induction text as [|c text IH]; [done|]. cbn [forallb trimStart].
  intros [Hc Htext]%andb_true_iff. rewrite Hc. by apply IH.
Qed.

Lemma trim_white text :
  forallb is_white_space text = true → trim text = [].
Proof.
  intros Hw. unfold trim, trimEnd. by rewrite (trimStart_white _ Hw).
Qed.

(** X1: when every call of a describe batch is answered, the route has
    issued exactly one remote call per file, in the order of the files,
    each carrying the bytes of its file and its media type, image/jpeg
    where the file has none. *)
Theorem describe_calls_one_per_file (files : list multer_file) (w : world) :
  (∀ i f, files !! i = Some f →
          is_Some (remote (length w + i)%nat (describe_request f))) →
  snd (api_describe remote (Some files) w)
  = w ++ map (fun f => DescribeRequest
                         (buffer f)
                         (match mimetype f with
                          | [] => js "image/jpeg"
                          | m => m
                          end)) files.
Proof.
  intros Hok.
  destruct (api_describe_answered remote files w Hok) as (results & -> & _).
  done.
Qed.

(** X3: a reply whose content is not empty but holds white space only
    does not get the default text: the English description of that image
    is the empty string. *)
Theorem describe_blank_content_gives_empty_alt
    (files : list multer_file) (w : world) i f c text :
  (∀ j g, files !! j = Some g →
          is_Some (remote (length w + j)%nat (describe_request g))) →
  files !! i = Some f →
  remote (length w + i)%nat (describe_request f) = Some c →
  first_content c = Some text →
  text ≠ [] →
  forallb is_white_space text = true →
  ∃ results r,
    fst (api_describe remote (Some files) w)
    = json (object [(js "results", VArr results)])
    ∧ results !! i = Some r
    ∧ member r (js "english_alt") = VStr [].
Proof.
  intros Hok Hi Hc Htext Hne Hwhite.
  destruct (api_describe_answered remote files w Hok)
    as (results & Hrun & _ & Hit).
  destruct (Hit i f Hi) as (c' & Hc' & Hr).
  assert (c' = c) as -> by congruence.
  exists results, (described_item f c). rewrite Hrun.
  split; [done|]. split; [done|].
  change (member (described_item f c) (js "english_alt"))
    with (VStr (trim (str_or (first_content c)
                             (js "Descriptive alt text.")))).
  rewrite Htext. destruct text as [|ch text]; [done|].
  cbn [str_or]. by rewrite (trim_white _ Hwhite).
Qed.

End DescribeCalls.

(** ** More on the translate route: failures and the keys of a row *)

Section TranslateMore.

Import Server.

Variable remote : nat -> chat_request -> option chat_completion.
Variable JSON_parse : jsstring -> option jsvalue.
Variable ToString : jsvalue -> jsstring.

Local Abbreviation to_key := (to_key ToString).
Local Abbreviation row_of := (row_of ToString).
Local Abbreviation fill_locales := (fill_locales ToString).
Local Abbreviation item_throws := (item_throws remote JSON_parse).
Local Abbreviation translate_item := (translate_item remote JSON_parse ToString).
Local Abbreviation translate_loop := (translate_loop remote JSON_parse ToString).
Local Abbreviation api_translate := (api_translate remote JSON_parse ToString).

Lemma fill_locales_null parsed locales row w :
  nullish parsed = true → locales ≠ [] →
  fill_locales parsed locales row w = (Thrown TypeError, w).
Proof.
  intros Hp Hl. destruct locales as [|lc locales]; [done|].
  cbn [fill_locales]. unfold bind, get. by rewrite Hp.
Qed.

Lemma translate_item_throws it locales w :
  item_throws locales it (length w) →
  ∃ e w', translate_item it locales w = (Thrown e, w').
Proof.
  unfold item_throws, translate_item, bind, get, chat_create.
  intros [Hit|[Hnone|(c & Hc & [Hparse|(p & Hp & Hnull & Hl)])]].
  - rewrite Hit. by eexists _, _.
  - destruct (nullish it); [by eexists _, _|]. unfold ret.
    rewrite Hnone. by eexists _, _.
  - destruct (nullish it); [by eexists _, _|]. unfold ret.
    rewrite Hc, Hparse. by eexists _, _.
  - destruct (nullish it); [by eexists _, _|]. unfold ret.
    rewrite Hc, Hp. rewrite (fill_locales_null _ _ _ _ Hnull Hl).
    by eexists _, _.
Qed.

Lemma translate_loop_throws items locales :
  ∀ rows w i it,
    items !! i = Some it →
    item_throws locales it (length w + i) →
    ∃ e w', translate_loop items locales rows w = (Thrown e, w').
Proof.
  induction items as [|it0 items IH]; intros rows w i it Hi Hthrows; [done|].
  cbn [translate_loop]. unfold bind at 1.
  destruct (translate_item it0 locales w) as [[r|e] w1] eqn:Hitem;
    [|by eexists _, _].
  destruct i as [|i]; simpl in Hi.
  - inversion Hi; subst it0. rewrite Nat.add_0_r in Hthrows.
    destruct (translate_item_throws it locales w Hthrows) as (e & w' & He).
    congruence.
  - apply translate_item_returned in Hitem as [-> _].
    apply (IH _ _ i it Hi).
    rewrite length_app. simpl.
    by replace (length w + 1 + i)%nat with (length w + S i)%nat by lia.
Qed.

(** One throwing item turns into the route's one error response. *)
Lemma api_translate_throws body items locales w i it :
  member body (js "items") = VArr items →
  member body (js "locales") = VArr locales →
  items !! i = Some it →
  item_throws locales it (length w + i) →
  ∃ w', api_translate body w = (send 500 (js "Translate error"), w').
Proof.
  intros Hitems Hlocales Hi Hthrows.
  rewrite (api_translate_arrays remote JSON_parse ToString body items locales w)
    by (by rewrite (or_else_with_member _ _ _ Hitems)).
  destruct (translate_loop_throws items locales [] w i it Hi Hthrows)
    as (e & w' & ->).
  by exists w'.
Qed.




(** X4: the translate route answers with status 500 and no rows as soon
    as the loop body throws for one item of the request: the item is null,
    its remote call is rejected, the reply does not parse as JSON, or the
    reply parses to null while a locale is requested. *)
Theorem translate_failure_fails_whole_batch body items locales w i it :
  member body (js "items") = VArr items →
  member body (js "locales") = VArr locales →
  items !! i = Some it →
  item_throws locales it (length w + i) →
  ∃ w', api_translate body w = (send 500 (js "Translate error"), w').
Proof. apply api_translate_throws. Qed.


End TranslateMore.

(** ** More on the validation step *)

Section ValidationMore.

Import Client.

Lemma rejection_iff_not_accepted f :
  (accepted f = true ∧ rejection f = None)
  ∨ (accepted f = false ∧ ∃ msg, rejection f = Some msg).
Proof.
  unfold rejection, accepted.
  destruct (bool_decide (type f ∈ SUPPORTED_MIME));
    destruct (MAX_SIZE_BYTES <? size f); cbn; eauto.
Qed.

(** The messages and the kept files together number the files of the
    batch. *)
Lemma validate_lengths (files : list File) :
  (length (omap rejection files)
   + length (filter (λ f, accepted f) files))%nat
  = length files.
Proof.
  induction files as [|f files IH]; [done|].
  assert (omap rejection (f :: files)
          = option_list (rejection f) ++ omap rejection files) as ->
    by (cbn [omap list_omap]; by destruct (rejection f)).
  rewrite filter_cons, length_app.
  destruct (rejection_iff_not_accepted f) as [[Ha ->]|[Ha [msg ->]]].
  - rewrite decide_True by (by apply Is_true_true_2). simpl. lia.
  - rewrite decide_False by (by apply Is_true_false_2). simpl. lia.
Qed.

(** X7: the validation step gives every file of the batch exactly one
    fate: it is kept, or it is left out and one message is pushed for it;
    so the messages and the kept files together number the files of the
    batch. *)
Theorem validate_one_fate_per_file (files : list File) :
  (length (fst (validate files)) + length (snd (validate files)))%nat
  = length files
  ∧ ∀ f, f ∈ files →
      (f ∈ snd (validate files) ∧ rejection f = None)
      ∨ ((f ∉ snd (validate files))
         ∧ ∃ msg, rejection f = Some msg ∧ msg ∈ fst (validate files)).
Proof.
  rewrite validate_partition. cbn [fst snd]. split.
  - apply validate_lengths.
  - intros f Hin.
    destruct (rejection_iff_not_accepted f) as [[Ha Hr]|[Ha [msg Hr]]].
    + left. split; [|done]. apply list_elem_of_filter. split; [|done].
      by rewrite Ha.
    + right. split.
      * rewrite list_elem_of_filter. intros [Hacc _]. by rewrite Ha in Hacc.
      * exists msg. split; [done|]. apply list_elem_of_omap. by exists f.
Qed.

(** X8: validating two batches one after the other gives the messages and
    the kept files of validating them as one batch: no file's fate depends
    on the files around it. *)
Theorem validate_batches_compose (first second : list File) :
  validate (first ++ second)
  = (fst (validate first) ++ fst (validate second),
     snd (validate first) ++ snd (validate second)).
Proof.
  rewrite !validate_partition. cbn [fst snd].
  by rewrite omap_app, filter_app.
Qed.

(** X9: a file of a supported media type is kept up to and including
    5242880 bytes, the limit itself being accepted. *)
Theorem validate_accepts_up_to_limit (files : list File) (f : File) :
  f ∈ files →
  type f ∈ [js "image/jpeg"; js "image/jpg"; js "image/png"; js "image/webp"] →
  size f ≤ 5242880 →
  f ∈ snd (validate files).
Proof.
  intros Hin Htype Hsize.
  rewrite validate_partition. cbn [snd]. apply list_elem_of_filter.
  split; [|done]. unfold accepted.
  rewrite bool_decide_eq_true_2
    by (unfold SUPPORTED_MIME; by apply elem_of_list_to_set).
  apply N.leb_le in Hsize. rewrite N.leb_antisym in Hsize.
  change 5242880 with MAX_SIZE_BYTES in Hsize.
  by destruct (MAX_SIZE_BYTES <? size f).
Qed.

End ValidationMore.

(** ** More on the pipeline: what one call of [handleFiles] does *)

Lemma wire_request items locales :
  wire (object [(js "items", VArr items);
                (js "locales", VArr (map VStr locales))])
  = object [(js "items", VArr (map wire_element items));
            (js "locales", VArr (map VStr locales))].
Proof.
  change (wire (object [(js "items", VArr items);
                        (js "locales", VArr (map VStr locales))]))
    with (object [(js "items", VArr (map wire_element items));
                  (js "locales",
                   VArr (map wire_element (map VStr locales)))]).
  assert (map wire_element (map VStr locales) = map VStr locales) as ->; [|done].
  rewrite map_map. by apply map_ext.
Qed.

Section PipelineMore.

Import Client.

Variable remote : nat -> chat_request -> option chat_completion.
Variable JSON_parse : jsstring -> option jsvalue.
Variable ToString : jsvalue -> jsstring.
Variable JSON_stringify : jsvalue -> jsstring.
Variable builtin_message : exn -> jsstring.

Local Abbreviation batchDescribe :=
  (batchDescribe remote JSON_parse JSON_stringify).
Local Abbreviation batchTranslate :=
  (batchTranslate remote JSON_parse ToString JSON_stringify).
Local Abbreviation handleFiles :=
  (handleFiles remote JSON_parse ToString JSON_stringify builtin_message).

(** The whole of [handleFiles] once a file passed validation. *)
Lemma handleFiles_valid files st w :
  snd (validate files) ≠ [] →
  handleFiles files st w
  = match
      (let* described := batchDescribe (snd (validate files)) in
       batchTranslate described (map fst LOCALES)) w
    with
    | (Returned completedRows, w') =>
        ({| rows := rows st ++ completedRows;
            errors := errors st ++ fst (validate files);
            isProcessing := false |}, w')
    | (Thrown e, w') =>
        ({| rows := rows st;
            errors := (errors st ++ fst (validate files))
                      ++ [surfaced_message builtin_message e];
            isProcessing := false |}, w')
    end.
Proof.
  intros Hvalid. unfold Client.handleFiles.
  destruct (validate files) as [newErrors validFiles]. cbn [fst snd] in *.
  destruct validFiles as [|g validFiles]; [done|].
  cbn [length Nat.eqb]. unfold try_catch, bind.
  destruct (batchDescribe (g :: validFiles) w) as [[described|e] w1]; [|done].
  by destruct (batchTranslate described (map fst LOCALES) w1) as [[completed|e] w2].
Qed.

(** The whole of [handleFiles] when no file passed validation. *)
Lemma handleFiles_none_valid files st w :
  snd (validate files) = [] →
  handleFiles files st w
  = ({| rows := rows st; errors := errors st ++ fst (validate files);
        isProcessing := isProcessing st |}, w).
Proof.
  intros Hnone. unfold Client.handleFiles.
  destruct (validate files) as [newErrors validFiles]. cbn [fst snd] in *.
  by subst validFiles.
Qed.

(** X11: whatever the batch and whatever the remote model does,
    [handleFiles] only appends: the rows and the messages that were there
    stay in front, the messages of the validation step follow, and then
    comes either a list of new rows or one more message, never both. *)
Theorem handleFiles_appends_only files st w :
  ∃ new extra,
    rows (fst (handleFiles files st w)) = rows st ++ new
    ∧ errors (fst (handleFiles files st w))
      = errors st ++ fst (validate files) ++ extra
    ∧ (length extra ≤ 1)%nat
    ∧ (new = [] ∨ extra = []).
Proof.
  destruct (decide (snd (validate files) = [])) as [Hnone|Hsome].
  - rewrite (handleFiles_none_valid files st w Hnone). exists [], [].
    cbn [fst rows errors]. rewrite !app_nil_r. split_and!; auto.
  - rewrite (handleFiles_valid files st w Hsome).
    destruct (bind _ _ w) as [[completed|e] w'].
    + exists completed, []. cbn [fst rows errors]. rewrite app_nil_r.
      split_and!; auto.
    + exists [], [surfaced_message builtin_message e].
      cbn [fst rows errors]. rewrite app_nil_r, <- app_assoc.
      split_and!; auto.
Qed.


Lemma wire_element_described f c :
  wire_element (Server.described_item f c) = Server.described_item f c.
Proof. reflexivity. Qed.

(** A describe batch whose calls are all answered, seen from the
    browser. *)
Lemma batchDescribe_answered files w :
  (∀ i f, files !! i = Some f →
          is_Some (remote (length w + i)%nat
                          (Server.describe_request (form_part f)))) →
  ∃ results,
    batchDescribe files w
    = (Returned results,
       w ++ map Server.describe_request (map form_part files))
    ∧ length results = length files
    ∧ ∀ i f, files !! i = Some f →
        ∃ c, remote (length w + i)%nat
                    (Server.describe_request (form_part f)) = Some c
             ∧ results !! i = Some (Server.described_item (form_part f) c).
Proof.
  intros Hok.
  destruct (api_describe_answered remote (map form_part files) w)
    as (results & Hroute & Hlen & Hitems).
  { intros i g Hg. rewrite list_lookup_fmap in Hg.
    destruct (files !! i) as [f|] eqn:Hf; [|done].
    inversion Hg; subst g. by apply Hok. }
  rewrite length_map in Hlen.
  assert (∀ i f, files !! i = Some f →
            ∃ c, remote (length w + i)%nat
                        (Server.describe_request (form_part f)) = Some c
                 ∧ results !! i
                   = Some (Server.described_item (form_part f) c)) as Hres.
  { intros i f Hf. apply (Hitems i (form_part f)).
    by rewrite list_lookup_fmap, Hf. }
  assert (map wire_element results = results) as Hwire.
  { apply list_eq. intros i. rewrite list_lookup_fmap.
    destruct (results !! i) as [r|] eqn:Hr; [|done].
    assert (i < length files)%nat as Hlt
      by (rewrite <- Hlen; by apply lookup_lt_Some in Hr).
    destruct (lookup_lt_is_Some_2 files i Hlt) as [f Hf].
    destruct (Hres i f Hf) as (c & _ & Hr').
    assert (r = Server.described_item (form_part f) c) as -> by congruence.
    done. }
  exists results. split; [|by split].
  unfold Client.batchDescribe, bind, fetch. rewrite Hroute.
  cbn [res_ok negb res_json ret].
  change (wire (object [(js "results", VArr results)]))
    with (object [(js "results", VArr (map wire_element results))]).
  rewrite Hwire.
  change (member (object [(js "results", VArr results)]) (js "results"))
    with (VArr results).
  done.
Qed.

Lemma batchTranslate_rejected items locales w w' :
  Server.api_translate remote JSON_parse ToString
    (object [(js "items", VArr (map wire_element items));
             (js "locales", VArr (map VStr locales))]) w
  = (send 500 (js "Translate error"), w') →
  batchTranslate items locales w
  = (Thrown (Error (js "Translate API failed (500). Translate error")), w').
Proof.
  intros Hroute. unfold Client.batchTranslate, bind, fetch.
  by rewrite wire_request, Hroute.
Qed.




Lemma nullish_described f c : nullish (Server.described_item f c) = false.
Proof. reflexivity. Qed.

(** X12: when the describe call of a batch succeeds and a remote call of
    the translate step is rejected, the descriptions are dropped with the
    rest: no row is added, and the one message appended after those of the
    validation step is that of the translate failure. *)
Theorem handleFiles_translate_failure files st w j :
  let valid := snd (validate files) in
  (∀ i req, (i < length valid)%nat →
            is_Some (remote (length w + i)%nat req)) →
  (j < length valid)%nat →
  (∀ req, remote (length w + length valid + j)%nat req = None) →
  fst (handleFiles files st w)
  = {| rows := rows st;
       errors := errors st ++ fst (validate files)
                 ++ [js "Translate API failed (500). Translate error"];
       isProcessing := false |}.
Proof.
  intros valid Hdescribe Hj Hnone.
  assert (valid ≠ []) as Hvalid by (intros Hnil; rewrite Hnil in Hj; simpl in Hj; lia).
  rewrite (handleFiles_valid files st w Hvalid). fold valid.
  destruct (batchDescribe_answered valid w)
    as (results & Hdesc & Hlen & Hres).
  { intros i f Hf. apply Hdescribe. by apply lookup_lt_Some in Hf. }
  unfold bind at 1. rewrite Hdesc.
  set (w1 := w ++ map Server.describe_request (map form_part valid)).
  assert (length w1 = (length w + length valid)%nat) as Hw1
    by (unfold w1; by rewrite length_app, !length_map).
  destruct (lookup_lt_is_Some_2 valid j Hj) as [f Hf].
  destruct (Hres j f Hf) as (c & _ & Hr).
  assert (map wire_element results = results) as Hwire.
  { apply list_eq. intros i. rewrite list_lookup_fmap.
    destruct (results !! i) as [r|] eqn:Hri; [|done].
    assert (i < length valid)%nat as Hlt
      by (rewrite <- Hlen; by apply lookup_lt_Some in Hri).
    destruct (lookup_lt_is_Some_2 valid i Hlt) as [g Hg].
    destruct (Hres i g Hg) as (c' & _ & Hr').
    assert (r = Server.described_item (form_part g) c') as -> by congruence.
    done. }
  destruct (api_translate_throws
              remote JSON_parse ToString
              (object [(js "items", VArr (map wire_element results));
                       (js "locales", VArr (map VStr (map fst LOCALES)))])
              results (map VStr (map fst LOCALES)) w1 j
              (Server.described_item (form_part f) c))
    as [w' Hroute].
  { by rewrite Hwire. }
  { done. }
  { done. }
  { right. left. rewrite Hw1. apply Hnone. }
  rewrite (batchTranslate_rejected _ _ _ _ Hroute).
  cbn [fst surfaced_message str_or]. by rewrite <- app_assoc.
Qed.




(** X10: a batch in which no file passes validation costs no remote
    call: the rows and the processing flag stay as they were, and one
    message per file is appended. *)
Theorem handleFiles_nothing_valid files st w :
  (∀ f, f ∈ files → accepted f = false) →
  handleFiles files st w
  = ({| rows := rows st;
        errors := errors st ++ omap rejection files;
        isProcessing := isProcessing st |}, w)
  ∧ length (omap rejection files) = length files.
Proof.
  intros Hnone.
  assert (filter (λ f, accepted f) files = []) as Hvalid.
  { destruct (filter (λ f, accepted f) files) as [|x l] eqn:Hf; [done|].
    assert (x ∈ filter (λ f, accepted f) files) as Hx
      by (rewrite Hf; apply list_elem_of_here).
    apply list_elem_of_filter in Hx as [Ha Hin].
    by rewrite (Hnone x Hin) in Ha. }
  pose proof (validate_lengths files) as Hlen.
  rewrite Hvalid in Hlen. cbn [length] in Hlen.
  split; [|lia].
  rewrite (handleFiles_none_valid files st w);
    by rewrite validate_partition, Hvalid.
Qed.

End PipelineMore.

(** ** More on the exporter *)

Section ExportMore.

Import Client.

Lemma count_quote_double v :
  Nat.Even (length (filter (λ c, c = QUOTE) (double_quotes v))).
Proof.
  induction v as [|c v IH]; [by exists 0%nat|].
  unfold double_quotes. cbn [flat_map]. fold (double_quotes v).
  unfold jsstring in *. rewrite filter_app, length_app. destruct IH as [n ->].
  destruct (c =? QUOTE) eqn:Hc.
  - exists (S n).
    change (length (filter (λ c, c = QUOTE) [QUOTE; QUOTE])) with 2%nat. lia.
  - exists n. apply N.eqb_neq in Hc.
    rewrite filter_cons_False by done. simpl. lia.
Qed.

Lemma plain_field_has_no_quote (v : list N) :
  needs_quoting v = false → filter (λ c, c = QUOTE) v = [].
Proof.
  induction v as [|c v IH]; [done|]. intros Hq.
  apply needs_quoting_cons in Hq as (Hc & _ & _ & Hq).
  apply N.eqb_neq in Hc. rewrite filter_cons_False by done. by apply IH.
Qed.

(** X16: whatever the field, [escape] returns a text with an even number
    of double quotes, so that the quoting of a line stays balanced. *)
Theorem escape_balances_quotes (val : option jsstring) :
  Nat.Even (length (filter (λ c, c = QUOTE) (escape val))).
Proof.
  unfold escape. destruct (needs_quoting (default [] val)) eqn:Hq.
  - destruct (count_quote_double (default [] val)) as [n Hn].
    unfold jsstring in *. rewrite !filter_app, !length_app, Hn.
    assert (length (filter (λ c : N, c = QUOTE) [QUOTE]) = 1%nat) as ->
      by reflexivity.
    exists (S n). lia.
  - exists 0%nat. unfold jsstring in *.
    by rewrite (plain_field_has_no_quote _ Hq).
Qed.

(** X15: whatever the rows hold, a carriage return included, the first
    record read back from the exported document is the header row. *)
Theorem export_header_survives (rows : list Row) :
  head (csv_read (download_text rows)) = Some headers.
Proof.
  change (csv_read (download_text rows))
    with (csv_records FieldStart [] [] (toCSV rows)).
  rewrite toCSV_lines. cbn [map].
  assert (Forall (λ v, bare_carriage_return v = false) headers) as Hh
    by (by repeat constructor).
  destruct (map Row_values rows) as [|vs vss].
  - cbn [map join]. rewrite <- (app_nil_r (line_of headers)).
    by rewrite csv_records_line; [|done|done|left|cbn; lia].
  - change (join [LF] (line_of headers :: map line_of (vs :: vss)))
      with (line_of headers ++ [LF] ++ join [LF] (map line_of (vs :: vss))).
    by rewrite csv_records_line; [|done|done|right; eexists|].
Qed.

Lemma dashed_has_no_dot (iso : jsstring) :
  filter (λ c, c = DOT) (dashed iso) = [].
Proof.
  unfold jsstring in *.
  induction iso as [|c iso IH]; [done|]. cbn [dashed map].
  rewrite filter_cons_False; [apply IH|].
  destruct (c =? COLON) eqn:H1; destruct (c =? DOT) eqn:H2; cbn;
    try discriminate. by apply N.eqb_neq in H2.
Qed.

(** X17: the name given to the downloaded file holds no colon, its only
    dot is that of its extension, and it is as long as the time stamp plus
    the fourteen characters around it. *)
Theorem download_name_has_no_colon (iso : jsstring) :
(COLON ∉ download_name iso)
  ∧ length (download_name iso) = (length iso + 14)%nat
  ∧ filter (λ c, c = DOT) (download_name iso) = [DOT].
Proof.
  unfold download_name. split; [|split].
  - rewrite !elem_of_app. intros [Hin|[Hin|Hin]].
    + revert Hin. apply (bool_decide_unpack _). vm_compute. exact I.
    + unfold dashed in Hin. apply list_elem_of_fmap in Hin as (c & Hc & _).
      destruct (c =? COLON) eqn:Hcolon; destruct (c =? DOT); cbn in Hc;
        try discriminate. apply N.eqb_neq in Hcolon. congruence.
    + revert Hin. apply (bool_decide_unpack _). vm_compute. exact I.
  - rewrite !length_app. unfold dashed. rewrite length_map. cbn. lia.
  - pose proof (dashed_has_no_dot iso) as Hdot.
    unfold jsstring in *. by rewrite !filter_app, Hdot.
Qed.

(** X18: an entry of [classNames] that is [false], [null], [undefined] or
    the empty string leaves no trace in the result, not even a space. *)
Theorem classNames_ignores_falsy (before after : list (option jsstring))
    (x : option jsstring) :
  x = None ∨ x = Some [] →
  classNames (before ++ x :: after) = classNames (before ++ after).
Proof.
  intros Hx. unfold classNames. rewrite !omap_app. cbn [omap list_omap].
  by destruct Hx as [-> | ->].
Qed.

End ExportMore.

(** ** The further properties at sample inputs *)

(** X1 at two files, the second without a media type. *)
Lemma describe_calls_one_per_file_witness :
  snd (Server.api_describe
         (Samples.remote_always (Samples.completion_with None))
         (Some [Samples.cat_jpeg; Samples.dog_png]) [])
  = [DescribeRequest [255; 216; 255] (js "image/jpeg");
     DescribeRequest [137; 80; 78; 71] (js "image/jpeg")].
Proof.
  apply (describe_calls_one_per_file
           (Samples.remote_always (Samples.completion_with None))
           [Samples.cat_jpeg; Samples.dog_png] []).
  intros i f _. by eexists.
Defined.

(** X2 at three files, the second call being rejected: two requests are
    logged, the third file is never sent. *)
Lemma describe_stops_at_first_rejection_witness :
  Server.api_describe
    (Samples.remote_failing_at 1 (Samples.completion_with None))
    (Some [Samples.cat_jpeg; Samples.dog_png; Samples.cat_jpeg]) []
  = (send 500 (js "Describe error"),
     [Server.describe_request Samples.cat_jpeg;
      Server.describe_request Samples.dog_png]).
Proof.
  apply (describe_stops_at_first_rejection
           (Samples.remote_failing_at 1 (Samples.completion_with None))
           [Samples.cat_jpeg; Samples.dog_png; Samples.cat_jpeg] []
           1%nat Samples.dog_png).
  - reflexivity.
  - intros j g Hj _. assert (j = 0%nat) as -> by lia. by eexists.
  - reflexivity.
Defined.

(** X3 at a reply of two spaces. *)
Lemma describe_blank_content_gives_empty_alt_witness :
  ∃ results r,
    fst (Server.api_describe
           (Samples.remote_always
              (Samples.completion_with (Some (js "  "))))
           (Some [Samples.cat_jpeg]) [])
    = json (object [(js "results", VArr results)])
    ∧ results !! 0%nat = Some r
    ∧ member r (js "english_alt") = VStr [].
Proof.
  apply (describe_blank_content_gives_empty_alt
           (Samples.remote_always
              (Samples.completion_with (Some (js "  "))))
           [Samples.cat_jpeg] [] 0%nat Samples.cat_jpeg
           (Samples.completion_with (Some (js "  "))) (js "  ")).
  - intros j g _. by eexists.
  - reflexivity.
  - reflexivity.
  - reflexivity.
  - discriminate.
  - reflexivity.
Defined.

(** X4 at a reply that is no JSON text. *)
Lemma translate_failure_fails_whole_batch_witness :
  ∃ w',
    Server.api_translate
      (Samples.remote_always
         (Samples.completion_with (Some (js "Un gato."))))
      (Samples.parse_table Samples.reply_table) Samples.no_ToString
      (object [(js "items", VArr [Samples.cat_item]);
               (js "locales", VArr (map VStr Server.LOCALES))]) []
    = (send 500 (js "Translate error"), w').
Proof.
  apply (translate_failure_fails_whole_batch
           (Samples.remote_always
              (Samples.completion_with (Some (js "Un gato."))))
           (Samples.parse_table Samples.reply_table) Samples.no_ToString
           _ [Samples.cat_item] (map VStr Server.LOCALES) []
           0%nat Samples.cat_item).
  - reflexivity.
  - reflexivity.
  - reflexivity.
  - right. right.
    exists (Samples.completion_with (Some (js "Un gato."))).
    split; [reflexivity|]. left. reflexivity.
Defined.



(** X7 at a batch of a kept JPEG, a GIF and an oversized PNG. *)
Lemma validate_one_fate_per_file_witness :
  let files :=
    [Samples.cat_file; Samples.big_gif_file; Samples.dog_file] in
  Client.rejection Samples.dog_file
  = Some (Client.oversize_message Samples.dog_file)
  ∧ (Samples.dog_file ∉ snd (Client.validate files))
  ∧ Samples.cat_file ∈ snd (Client.validate files).
Proof.
  intros files.
  destruct (validate_one_fate_per_file files) as [_ Hfate].
  split; [reflexivity|]. split.
  - destruct (Hfate Samples.dog_file) as [[_ Hkept]|[Hout _]];
      [do 2 apply list_elem_of_further; apply list_elem_of_here
      |discriminate Hkept|exact Hout].
  - destruct (Hfate Samples.cat_file) as [[Hin _]|[_ (msg & Hmsg & _)]];
      [apply list_elem_of_here|exact Hin|discriminate Hmsg].
Defined.

(** X9 at a PNG of exactly 5 MiB. *)
Lemma validate_accepts_up_to_limit_witness :
  let at_limit :=
    {| Client.name := js "dog.png"; Client.type := js "image/png";
       Client.size := 5242880; Client.bytes := [] |} in
  at_limit ∈ snd (Client.validate [Samples.big_gif_file; at_limit]).
Proof.
  intros at_limit.
  apply (validate_accepts_up_to_limit
           [Samples.big_gif_file; at_limit] at_limit).
  - apply list_elem_of_further, list_elem_of_here.
  - do 2 apply list_elem_of_further. apply list_elem_of_here.
  - reflexivity.
Defined.

(** X10 at a batch of a GIF and an oversized PNG, with a remote model that
    would reject every call. *)
Lemma handleFiles_nothing_valid_witness :
  Client.handleFiles
    (fun _ _ => None) (Samples.parse_table Samples.reply_table)
    Samples.no_ToString Samples.no_JSON_stringify
    Samples.no_builtin_message
    [Samples.big_gif_file; Samples.dog_file] Samples.empty_state []
  = ({| Client.rows := [];
        Client.errors :=
          [Client.unsupported_message Samples.big_gif_file;
           Client.oversize_message Samples.dog_file];
        Client.isProcessing := false |}, []).
Proof.
  apply (handleFiles_nothing_valid
           (fun _ _ => None) (Samples.parse_table Samples.reply_table)
           Samples.no_ToString Samples.no_JSON_stringify
           Samples.no_builtin_message
           [Samples.big_gif_file; Samples.dog_file] Samples.empty_state []).
  intros f Hf.
  apply elem_of_cons in Hf as [->|Hf]; [reflexivity|].
  apply elem_of_cons in Hf as [->|Hf]; [reflexivity|].
  by apply elem_of_nil in Hf.
Defined.

(** X12 at one valid file: the describe call is answered, the translate
    call is rejected. *)
Lemma handleFiles_translate_failure_witness :
  fst (Client.handleFiles
         (Samples.remote_failing_at
            1 (Samples.completion_with (Some (js " A cat. "))))
         (Samples.parse_table Samples.reply_table)
         Samples.no_ToString Samples.no_JSON_stringify
         Samples.no_builtin_message
         [Samples.big_gif_file; Samples.cat_file] Samples.empty_state [])
  = {| Client.rows := [];
       Client.errors :=
         [Client.unsupported_message Samples.big_gif_file;
          js "Translate API failed (500). Translate error"];
       Client.isProcessing := false |}.
Proof.
  apply (handleFiles_translate_failure
           (Samples.remote_failing_at
              1 (Samples.completion_with (Some (js " A cat. "))))
           (Samples.parse_table Samples.reply_table)
           Samples.no_ToString Samples.no_JSON_stringify
           Samples.no_builtin_message
           [Samples.big_gif_file; Samples.cat_file] Samples.empty_state []
           0%nat).
  - intros i req Hi. change (i < 1)%nat in Hi.
    assert (i = 0%nat) as -> by lia. by eexists.
  - change (0 < 1)%nat. lia.
  - intros req. reflexivity.
Defined.


(** X18 at the call the component makes while it is not processing. *)
Lemma classNames_ignores_falsy_witness :
  Client.classNames [Some (js "rounded-2xl"); Some (js "bg-white"); Some []]
  = Client.classNames [Some (js "rounded-2xl"); Some (js "bg-white")].
Proof.
  apply (classNames_ignores_falsy
           [Some (js "rounded-2xl"); Some (js "bg-white")] [] (Some [])).
  by right.
Defined.
